(** * PulseNet: a shallow embedding of the probing engine of [src/main.rs]

    Machine integers are [Z] values whose range is written out where it
    matters: [u8] octets and [u16] ports live in [0, 2^8) and [0, 2^16),
    an [Ipv4Addr] is its 32-bit big-endian value, the [u32] counters of
    [Stats] wrap modulo 2^32 (release build). Durations are milliseconds. *)

From Stdlib Require Import ZArith List Bool Lia Permutation.
From Stdlib Require Import Strings.String Strings.Ascii.
Import ListNotations.
Open Scope Z_scope.

(* ------------------------------------------------------------------ *)
(** ** [std::net::Ipv4Addr] *)

Definition Ipv4Addr := Z.

(** [Ipv4Addr::new(a, b, c, d)] *)
Definition ipv4_new (a b c d : Z) : Ipv4Addr :=
  Z.lor (Z.shiftl a 24) (Z.lor (Z.shiftl b 16) (Z.lor (Z.shiftl c 8) d)).

(** [Ipv4Addr::octets] *)
Definition octets (ip : Ipv4Addr) : list Z :=
  [Z.land (Z.shiftr ip 24) 255; Z.land (Z.shiftr ip 16) 255;
   Z.land (Z.shiftr ip 8) 255; Z.land ip 255].

Definition octet (ip : Ipv4Addr) (i : nat) : Z := nth i (octets ip) 0.

(* ------------------------------------------------------------------ *)
(** ** [mod filter] *)

Module filter.

(** [filter::is_public_ipv4]: the [match octets[0]] with its guards, arm
    by arm; a guard that fails falls through to the next arm. *)
Definition is_public_ipv4 (ip : Ipv4Addr) : bool :=
  let o0 := octet ip 0 in
  let o1 := octet ip 1 in
  let o2 := octet ip 2 in
  if o0 =? 10 then false
  else if (o0 =? 100) && ((64 <=? o1) && (o1 <=? 127)) then false (* CGNAT *)
  else if o0 =? 127 then false
  else if (o0 =? 169) && (o1 =? 254) then false
  else if (o0 =? 172) && ((16 <=? o1) && (o1 <=? 31)) then false
  else if (o0 =? 192) && (o1 =? 168) then false
  else if (o0 =? 192) && ((o1 =? 0) && (o2 =? 2)) then false (* Documentation *)
  else if (o0 =? 198) && ((o1 =? 51) && (o2 =? 100)) then false
  else if (o0 =? 203) && ((o1 =? 0) && (o2 =? 113)) then false
  else if 224 <=? o0 then false (* Multicast & Reserved *)
  else true.

End filter.

(** The excluded ranges as the spec lists them: CIDR prefixes of the 32-bit
    value, and the addresses whose first octet is at least 224. *)
Definition in_cidr (ip net : Ipv4Addr) (len : Z) : bool :=
  Z.shiftr ip (32 - len) =? Z.shiftr net (32 - len).

Definition spec_excluded (ip : Ipv4Addr) : bool :=
  in_cidr ip (ipv4_new 10 0 0 0) 8
  || in_cidr ip (ipv4_new 100 64 0 0) 10
  || in_cidr ip (ipv4_new 127 0 0 0) 8
  || in_cidr ip (ipv4_new 169 254 0 0) 16
  || in_cidr ip (ipv4_new 172 16 0 0) 12
  || in_cidr ip (ipv4_new 192 168 0 0) 16
  || in_cidr ip (ipv4_new 192 0 2 0) 24
  || in_cidr ip (ipv4_new 198 51 100 0) 24
  || in_cidr ip (ipv4_new 203 0 113 0) 24
  || (224 <=? Z.shiftr ip 24).

(* ------------------------------------------------------------------ *)
(** ** [Scanner] and [check_ip] *)

Inductive ScanError := Timeout | ConnectionRefused | Unreachable.

Definition ScanError_eqb (a b : ScanError) : bool :=
  match a, b with
  | Timeout, Timeout | ConnectionRefused, ConnectionRefused
  | Unreachable, Unreachable => true
  | _, _ => false
  end.

Record Scanner := mkScanner {
  ports : list Z;        (* Vec<u16> *)
  timeout_ms : Z;        (* u64 *)
  simulate : bool
}.

(** The [std::io::ErrorKind] values a TCP connect can fail with. *)
Inductive ErrorKind :=
| KConnectionRefused | KConnectionReset | KConnectionAborted
| KHostUnreachable | KNetworkUnreachable | KAddrNotAvailable | KTimedOut
| KOther.

(** One [TcpStream::connect(addr)]: it completes after [conn_time] ms, with
    [Ok] ([None]) or an [io::Error] of the given kind. *)
Record Connect := mkConnect { conn_time : Z; conn_res : option ErrorKind }.

(** The network: the behaviour of the [i]-th connect of a probe of [ip] on
    [port]. *)
Definition Net := Ipv4Addr -> nat -> Z -> Connect.

(** [tokio::time::timeout(limit, connect)]: [Ok(Ok _)], [Ok(Err e)] or
    [Err(Elapsed)], with the time the await took. The timer is idealised: a
    timed-out attempt is charged exactly [limit]; the real timer may fire
    later, so this model classifies outcomes but bounds no wall-clock time. *)
Inductive Timed := TOk | TErr (k : ErrorKind) | TElapsed.

Definition tokio_timeout (limit : Z) (c : Connect) : Timed * Z :=
  if conn_time c <=? limit then
    (match conn_res c with None => TOk | Some k => TErr k end, conn_time c)
  else (TElapsed, limit).

(** What one iteration of the port loop did: port, timeout given, outcome,
    time spent. *)
Record Attempt := mkAttempt {
  att_port : Z; att_timeout : Z; att_outcome : Timed; att_dur : Z
}.

(** The environment of one probe: the network and the draws of
    [rand::thread_rng()] in the simulate branch. *)
Record ProbeEnv := mkProbeEnv {
  net : Net;
  sim_sleep : Z;        (* rng.gen_range(10..100) *)
  sim_hit : bool;       (* rng.gen_bool(0.05) *)
  sim_latency : Z       (* rng.gen_range(5..50) *)
}.

(** [(Option<u16>, Option<u128>, Option<ScanError>)] *)
Definition ProbeResult := (option Z * option Z * option ScanError)%type.

Definition classify (k : ErrorKind) : ScanError :=
  match k with
  | KConnectionRefused => ConnectionRefused
  | _ => Unreachable
  end.

(** [for &port in &self.ports { ... }], with [start.elapsed()] carried as
    [elapsed] and the attempts performed returned alongside the result. *)
Fixpoint port_loop (n : Net) (ip : Ipv4Addr) (port_timeout : Z) (idx : nat)
    (ps : list Z) (elapsed : Z) (last_error : option ScanError)
    : ProbeResult * list Attempt :=
  match ps with
  | [] => ((None, None, last_error), [])
  | port :: rest =>
      let '(r, d) := tokio_timeout port_timeout (n ip idx port) in
      let att := mkAttempt port port_timeout r d in
      match r with
      | TOk => ((Some port, Some (elapsed + d), None), [att])
      | TErr k =>
          let '(res, tr) :=
            port_loop n ip port_timeout (S idx) rest (elapsed + d) (Some (classify k)) in
          (res, att :: tr)
      | TElapsed =>
          let last_error' :=
            match last_error with None => Some Timeout | Some _ => last_error end in
          let '(res, tr) :=
            port_loop n ip port_timeout (S idx) rest (elapsed + d) last_error' in
          (res, att :: tr)
      end
  end.

(** [self.timeout_ms / self.ports.len().max(1) as u64] *)
Definition port_timeout_of (sc : Scanner) : Z :=
  timeout_ms sc / Z.max 1 (Z.of_nat (List.length (ports sc))).

(** [Scanner::check_ip]; [None] is a panic (the index [self.ports[0]]). *)
Definition check_ip (sc : Scanner) (ip : Ipv4Addr) (env : ProbeEnv)
    : option (ProbeResult * list Attempt) :=
  if simulate sc then
    if sim_hit env then
      match ports sc with
      | p0 :: _ => Some ((Some p0, Some (sim_latency env), None), [])
      | [] => None
      end
    else Some ((None, None, Some Timeout), [])
  else Some (port_loop (net env) ip (port_timeout_of sc) 0 (ports sc) 0 None).

(** Sum of the durations of the attempts: the probe's elapsed time. *)
Definition trace_time (tr : list Attempt) : Z := fold_right (fun a s => att_dur a + s) 0 tr.

(** The last attempt that failed with an [io::Error], classified, and whether
    some attempt ran out of its time slice. *)
Fixpoint last_explicit_error (tr : list Attempt) : option ScanError :=
  match tr with
  | [] => None
  | a :: rest =>
      match last_explicit_error rest with
      | Some e => Some e
      | None => match att_outcome a with TErr k => Some (classify k) | _ => None end
      end
  end.

Definition some_timeout (tr : list Attempt) : bool :=
  existsb (fun a => match att_outcome a with TElapsed => true | _ => false end) tr.

(** Every port of [ps] either runs out of its slice or is refused. *)
Definition all_refused_or_elapsed (n : Net) (ip : Ipv4Addr) (pt : Z) (idx : nat) (ps : list Z) : Prop :=
  forall i p, nth_error ps i = Some p ->
    fst (tokio_timeout pt (n ip (idx + i)%nat p)) = TElapsed \/
    fst (tokio_timeout pt (n ip (idx + i)%nat p)) = TErr KConnectionRefused.

(* ------------------------------------------------------------------ *)
(** ** [Stats] and the aggregator loop of [main] *)

Record Stats := mkStats {
  found : Z; timeouts : Z; refused : Z; unreachable : Z;
  total_processed : Z;   (* u32 *)
  total_latency : Z      (* u128 *)
}.

(** [Stats::default()] *)
Definition stats_default : Stats := mkStats 0 0 0 0 0 0.

(** [x += 1] on a [u32] and [x += y] on a [u128] (wrapping, release build). *)
Definition u32_inc (x : Z) : Z := (x + 1) mod 2 ^ 32.
Definition u128_add (x y : Z) : Z := (x + y) mod 2 ^ 128.

(** One iteration of [while let Some((ip, (port_found, latency, error))) =
    stream.next().await]; the log and UI writes do not touch [stats]. *)
Definition aggregate_step (st : Stats) (item : Ipv4Addr * ProbeResult) : Stats :=
  let '(_, (port_found, latency, error)) := item in
  let st := mkStats (found st) (timeouts st) (refused st) (unreachable st)
              (u32_inc (total_processed st)) (total_latency st) in
  match port_found with
  | Some _ =>
      let lat := match latency with Some l => l | None => 0 end in
      mkStats (u32_inc (found st)) (timeouts st) (refused st) (unreachable st)
        (total_processed st) (u128_add (total_latency st) lat)
  | None =>
      match error with
      | Some Timeout =>
          mkStats (found st) (u32_inc (timeouts st)) (refused st) (unreachable st)
            (total_processed st) (total_latency st)
      | Some ConnectionRefused =>
          mkStats (found st) (timeouts st) (u32_inc (refused st)) (unreachable st)
            (total_processed st) (total_latency st)
      | Some Unreachable =>
          mkStats (found st) (timeouts st) (refused st) (u32_inc (unreachable st))
            (total_processed st) (total_latency st)
      | None => st
      end
  end.

(** The loop over the stream, in the order the stream yields (completion
    order of [buffer_unordered]). *)
Definition aggregate (st : Stats) (stream : list (Ipv4Addr * ProbeResult)) : Stats :=
  fold_left aggregate_step stream st.

Definition stats_sum (st : Stats) : Z :=
  found st + timeouts st + refused st + unreachable st.

(** A probe result that names a port or a reason. *)
Definition decided (r : ProbeResult) : Prop :=
  match r with
  | (Some _, _, _) | (None, _, Some _) => True
  | (None, _, None) => False
  end.

Definition stats_inv (st : Stats) : Prop :=
  0 <= found st /\ 0 <= timeouts st /\ 0 <= refused st /\ 0 <= unreachable st /\
  total_processed st = stats_sum st.

(** The ranges of the field types of [Stats]: [u32] counters, [u128] latency. *)
Definition stats_in_range (st : Stats) : Prop :=
  0 <= found st < 2 ^ 32 /\ 0 <= timeouts st < 2 ^ 32 /\ 0 <= refused st < 2 ^ 32 /\
  0 <= unreachable st < 2 ^ 32 /\ 0 <= total_processed st < 2 ^ 32 /\
  0 <= total_latency st < 2 ^ 128.

(* ------------------------------------------------------------------ *)
(** ** [&str] as UTF-8 bytes: [split], [trim], [lines] *)

(** A Rust string is its UTF-8 bytes; [bytes_of] reads a Rocq literal. *)
Definition bytes_of (s : string) : list Z :=
  map (fun c => Z.of_N (N_of_ascii c)) (list_ascii_of_string s).

(** [str::split(sep)] for a one-byte separator. *)
Fixpoint split_on (sep : Z) (s : list Z) : list (list Z) :=
  match s with
  | [] => [[]]
  | b :: rest =>
      match split_on sep rest with
      | [] => [[b]]
      | cur :: others => if b =? sep then [] :: cur :: others else (b :: cur) :: others
      end
  end.

(** The UTF-8 encodings of the characters with [char::is_whitespace]
    (Unicode White_Space): U+0009..U+000D, U+0020, U+0085, U+00A0, U+1680,
    U+2000..U+200A, U+2028, U+2029, U+202F, U+205F, U+3000. *)
Definition is_ws_char (l : list Z) : bool :=
  match l with
  | [b] => ((9 <=? b) && (b <=? 13)) || (b =? 32)
  | [b1; b2] => (b1 =? 194) && ((b2 =? 133) || (b2 =? 160))
  | [b1; b2; b3] =>
      ((b1 =? 225) && (b2 =? 154) && (b3 =? 128))
      || ((b1 =? 226) && (b2 =? 128)
          && (((128 <=? b3) && (b3 <=? 138)) || (b3 =? 168) || (b3 =? 169) || (b3 =? 175)))
      || ((b1 =? 226) && (b2 =? 129) && (b3 =? 159))
      || ((b1 =? 227) && (b2 =? 128) && (b3 =? 128))
  | _ => false
  end.

Definition lastn {A} (k : nat) (l : list A) : list A := skipn (List.length l - k) l.

Definition ws_prefix_len (s : list Z) : nat :=
  if is_ws_char (firstn 1 s) then 1
  else if is_ws_char (firstn 2 s) then 2
  else if is_ws_char (firstn 3 s) then 3 else 0.

Definition ws_suffix_len (s : list Z) : nat :=
  if is_ws_char (lastn 1 s) then 1
  else if is_ws_char (lastn 2 s) then 2
  else if is_ws_char (lastn 3 s) then 3 else 0.

Fixpoint trim_start_fuel (fuel : nat) (s : list Z) : list Z :=
  match fuel with
  | O => s
  | S f => match ws_prefix_len s with
           | O => s
           | k => trim_start_fuel f (skipn k s)
           end
  end.

Fixpoint trim_end_fuel (fuel : nat) (s : list Z) : list Z :=
  match fuel with
  | O => s
  | S f => match ws_suffix_len s with
           | O => s
           | k => trim_end_fuel f (firstn (List.length s - k) s)
           end
  end.

(** [str::trim]: every step removes at least one byte, so [length s] steps
    suffice. *)
Definition trim (s : list Z) : list Z :=
  let s := trim_start_fuel (List.length s) s in
  trim_end_fuel (List.length s) s.

(** [str::split_inclusive('\n')] *)
Fixpoint split_inclusive (sep : Z) (s : list Z) : list (list Z) :=
  match s with
  | [] => []
  | b :: rest =>
      if b =? sep then [b] :: split_inclusive sep rest
      else match split_inclusive sep rest with
           | [] => [[b]]
           | cur :: others => (b :: cur) :: others
           end
  end.

Definition strip_suffix (suf s : list Z) : option (list Z) :=
  if (List.length suf <=? List.length s)%nat then
    if list_eq_dec Z.eq_dec (lastn (List.length suf) s) suf
    then Some (firstn (List.length s - List.length suf) s) else None
  else None.

(** [str::lines]: [split_inclusive('\n')], then strip ["\n"] and, after it,
    ["\r"]. *)
Definition lines (s : list Z) : list (list Z) :=
  map (fun line =>
         match strip_suffix [10] line with
         | None => line
         | Some l => match strip_suffix [13] l with None => l | Some l' => l' end
         end) (split_inclusive 10 s).

Definition is_digit (b : Z) : bool := (48 <=? b) && (b <=? 57).

(** [u16::from_str] (from_str_radix 10): a lone sign is an error, a leading
    ['+'] is skipped, then digits with checked arithmetic. *)
Fixpoint u16_digits (acc : Z) (ds : list Z) : option Z :=
  match ds with
  | [] => Some acc
  | d :: rest =>
      if is_digit d then
        let v := acc * 10 + (d - 48) in
        if 65535 <? v then None else u16_digits v rest
      else None
  end.

Definition parse_u16 (s : list Z) : option Z :=
  match s with
  | [] => None
  | [b] => if (b =? 43) || (b =? 45) then None else u16_digits 0 s
  | b :: rest => if b =? 43 then u16_digits 0 rest else u16_digits 0 s
  end.

(** [filter_map] *)
Fixpoint filter_map {A B} (f : A -> option B) (l : list A) : list B :=
  match l with
  | [] => []
  | x :: rest => match f x with Some y => y :: filter_map f rest | None => filter_map f rest end
  end.

(* ------------------------------------------------------------------ *)
(** ** [RandomSource] *)

(** The values [rand::thread_rng()] hands out to [gen_range(0..=255)], one
    [u8] per draw, in order. *)
Definition Rng := nat -> Byte.byte.

Definition u8_of (b : Byte.byte) : Z := Z.of_N (Byte.to_N b).

(** One iteration of the [loop]: four draws, in argument order. *)
Definition draw_ip (rng : Rng) (pos : nat) : Ipv4Addr :=
  ipv4_new (u8_of (rng pos)) (u8_of (rng (pos + 1)%nat))
           (u8_of (rng (pos + 2)%nat)) (u8_of (rng (pos + 3)%nat)).

(** [loop { let ip = ...; if filter::is_public_ipv4(ip) { return Some(ip); } }]
    as a big-step relation: the loop need not terminate. *)
Inductive gen_public (rng : Rng) : nat -> Ipv4Addr -> nat -> Prop :=
| gen_accept pos :
    filter.is_public_ipv4 (draw_ip rng pos) = true ->
    gen_public rng pos (draw_ip rng pos) (pos + 4)
| gen_retry pos ip pos' :
    filter.is_public_ipv4 (draw_ip rng pos) = false ->
    gen_public rng (pos + 4) ip pos' ->
    gen_public rng pos ip pos'.

Record RandomSource := mkRandomSource { rs_count : Z; rs_current : Z }.   (* usize *)

(** [<RandomSource as IpSource>::next_ip], from state and draw position to
    result, state and draw position. *)
Inductive random_next_ip (rng : Rng)
  : RandomSource -> nat -> option Ipv4Addr -> RandomSource -> nat -> Prop :=
| rn_done s pos :
    rs_count s <= rs_current s ->
    random_next_ip rng s pos None s pos
| rn_some s pos ip pos' :
    rs_current s < rs_count s ->
    gen_public rng pos ip pos' ->
    random_next_ip rng s pos (Some ip)
      (mkRandomSource (rs_count s) (rs_current s + 1)) pos'.

(** [<RandomSource as IpSource>::total_count] *)
Definition random_total_count (s : RandomSource) : Z := rs_count s.

(** Successive calls of [next_ip] and their results. *)
Inductive random_calls (rng : Rng)
  : RandomSource -> nat -> list (option Ipv4Addr) -> RandomSource -> nat -> Prop :=
| rc_nil s pos : random_calls rng s pos [] s pos
| rc_cons s pos o s1 pos1 outs s' pos' :
    random_next_ip rng s pos o s1 pos1 ->
    random_calls rng s1 pos1 outs s' pos' ->
    random_calls rng s pos (o :: outs) s' pos'.

(* ------------------------------------------------------------------ *)
(** ** Parsing addresses and networks *)

Fixpoint take_digits (s : list Z) : list Z * list Z :=
  match s with
  | b :: rest =>
      if is_digit b then let '(ds, r) := take_digits rest in (b :: ds, r) else ([], s)
  | [] => ([], [])
  end.

Definition digits_value (ds : list Z) : Z :=
  fold_left (fun acc d => acc * 10 + (d - 48)) ds 0.

(** std's [Parser::read_number(10, Some(3), false)] into a [u8]: at most
    three digits, checked [u8] arithmetic, no leading zero. *)
Definition std_read_octet (s : list Z) : option (Z * list Z) :=
  let '(ds, rest) := take_digits s in
  match ds with
  | [] => None
  | d0 :: _ =>
      if (3 <? List.length ds)%nat then None
      else if 255 <? digits_value ds then None
      else if (d0 =? 48) && (1 <? List.length ds)%nat then None
      else Some (digits_value ds, rest)
  end.

Definition read_given_char (c : Z) (s : list Z) : option (list Z) :=
  match s with b :: rest => if b =? c then Some rest else None | [] => None end.

(** [<Ipv4Addr as FromStr>::from_str]: longer than 15 bytes is refused up
    front, then four octets separated by dots, and nothing after. *)
Definition parse_ipv4 (s : list Z) : option Ipv4Addr :=
  if (15 <? List.length s)%nat then None else
  match std_read_octet s with
  | None => None
  | Some (a, s) =>
  match read_given_char 46 s with
  | None => None
  | Some s =>
  match std_read_octet s with
  | None => None
  | Some (b, s) =>
  match read_given_char 46 s with
  | None => None
  | Some s =>
  match std_read_octet s with
  | None => None
  | Some (c, s) =>
  match read_given_char 46 s with
  | None => None
  | Some s =>
  match std_read_octet s with
  | None => None
  | Some (d, []) => Some (ipv4_new a b c d)
  | Some (_, _ :: _) => None
  end end end end end end end.

(** [ipnet]'s parser [read_number(radix, max_digits, upto)] (the pre-1.0
    std parser it copies): digits while they come, failing as soon as there
    are more than [max_digits] or the value reaches [upto]. *)
Fixpoint ipnet_read_number_acc (max_digits : nat) (upto : Z) (count : nat) (r : Z)
    (s : list Z) : option (Z * list Z) :=
  match s with
  | b :: rest =>
      if is_digit b then
        let r' := r * 10 + (b - 48) in
        if (max_digits <? S count)%nat || (upto <=? r') then None
        else ipnet_read_number_acc max_digits upto (S count) r' rest
      else match count with O => None | _ => Some (r, s) end
  | [] => match count with O => None | _ => Some (r, []) end
  end.

Definition ipnet_read_number (max_digits : nat) (upto : Z) (s : list Z) :=
  ipnet_read_number_acc max_digits upto 0 0 s.

Record Ipv4Net := mkIpv4Net { net_addr : Ipv4Addr; prefix_len : Z }.

(** [<Ipv4Net as FromStr>::from_str]: four octets [read_number(10, 3, 0x100)]
    separated by dots, ['/'], a prefix [read_number(10, 2, 33)], end of input. *)
Definition parse_ipv4net (s : list Z) : option Ipv4Net :=
  match ipnet_read_number 3 256 s with
  | None => None
  | Some (a, s) =>
  match read_given_char 46 s with
  | None => None
  | Some s =>
  match ipnet_read_number 3 256 s with
  | None => None
  | Some (b, s) =>
  match read_given_char 46 s with
  | None => None
  | Some s =>
  match ipnet_read_number 3 256 s with
  | None => None
  | Some (c, s) =>
  match read_given_char 46 s with
  | None => None
  | Some s =>
  match ipnet_read_number 3 256 s with
  | None => None
  | Some (d, s) =>
  match read_given_char 47 s with
  | None => None
  | Some s =>
  match ipnet_read_number 2 33 s with
  | Some (p, []) => Some (mkIpv4Net (ipv4_new a b c d) p)
  | _ => None
  end end end end end end end end end.

Definition u32_max : Z := 2 ^ 32 - 1.

(** [Ipv4Net::netmask]: [u32::MAX.checked_shl(32 - prefix).unwrap_or(0)];
    [Ipv4Net::hostmask]: [u32::MAX.checked_shr(prefix).unwrap_or(0)]. *)
Definition netmask (n : Ipv4Net) : Z :=
  if prefix_len n =? 0 then 0
  else Z.land (Z.shiftl u32_max (32 - prefix_len n)) u32_max.

Definition hostmask (n : Ipv4Net) : Z :=
  if prefix_len n =? 32 then 0 else Z.shiftr u32_max (prefix_len n).

Definition network (n : Ipv4Net) : Ipv4Addr := Z.land (net_addr n) (netmask n).
Definition broadcast (n : Ipv4Net) : Ipv4Addr := Z.lor (net_addr n) (hostmask n).

(** [Ipv4AddrRange::new(start, end)] iterated: [start..=end]. *)
Definition addr_range (start end_ : Ipv4Addr) : list Ipv4Addr :=
  map (fun k => start + Z.of_nat k) (seq 0 (Z.to_nat (end_ - start + 1))).

(** [Ipv4Net::hosts]: network and broadcast are dropped below /31 only. *)
Definition hosts (n : Ipv4Net) : list Ipv4Addr :=
  let start := network n in
  let end_ := broadcast n in
  if prefix_len n <? 31 then
    addr_range (Z.min (start + 1) u32_max) (Z.max (end_ - 1) 0)   (* saturating *)
  else addr_range start end_.

(* ------------------------------------------------------------------ *)
(** ** [MultiIpSource] *)

(** The [for] loop of [MultiIpSource::from_cidr], before the shuffle. *)
Definition cidr_hosts (cidr_strs : list Z) : list Ipv4Addr :=
  fold_left (fun ips s =>
               match parse_ipv4net (trim s) with
               | Some net => ips ++ hosts net
               | None => ips
               end) (split_on 44 cidr_strs) [].

(** What one comma-separated piece contributes in that loop. *)
Definition cidr_entry_hosts (piece : list Z) : list Ipv4Addr :=
  match parse_ipv4net (trim piece) with
  | Some net => hosts net
  | None => []
  end.

(** [MultiIpSource::from_cidr]: [ips.shuffle(&mut rng)] may produce any
    permutation. *)
Definition from_cidr (cidr_strs : list Z) (ips : list Ipv4Addr) : Prop :=
  Permutation (cidr_hosts cidr_strs) ips.

(** [std::str::from_utf8] validity (Unicode Table 3-7). *)
Definition cont (b : Z) : bool := (128 <=? b) && (b <=? 191).

Fixpoint utf8_valid (s : list Z) : bool :=
  match s with
  | [] => true
  | b :: rest =>
      if b <? 128 then utf8_valid rest
      else if (194 <=? b) && (b <=? 223) then
        match rest with c1 :: r => cont c1 && utf8_valid r | _ => false end
      else if (224 <=? b) && (b <=? 239) then
        match rest with
        | c1 :: c2 :: r =>
            (if b =? 224 then (160 <=? c1) && (c1 <=? 191)
             else if b =? 237 then (128 <=? c1) && (c1 <=? 159)
             else cont c1) && cont c2 && utf8_valid r
        | _ => false
        end
      else if (240 <=? b) && (b <=? 244) then
        match rest with
        | c1 :: c2 :: c3 :: r =>
            (if b =? 240 then (144 <=? c1) && (c1 <=? 191)
             else if b =? 244 then (128 <=? c1) && (c1 <=? 143)
             else cont c1) && cont c2 && cont c3 && utf8_valid r
        | _ => false
        end
      else false
  end.

(** [std::fs::read_to_string]: the file's bytes ([None]: cannot be opened or
    read), accepted only when they are UTF-8. *)
Definition read_to_string (file : option (list Z)) : option (list Z) :=
  match file with
  | Some bytes => if utf8_valid bytes then Some bytes else None
  | None => None
  end.

(** The body of [MultiIpSource::from_file], before the shuffle. *)
Definition file_ips (file : option (list Z)) : list Ipv4Addr :=
  match read_to_string file with
  | Some content =>
      fold_left (fun ips line =>
                   match parse_ipv4 (trim line) with
                   | Some ip => ips ++ [ip]
                   | None => ips
                   end) (lines content) []
  | None => []
  end.

Definition from_file (file : option (list Z)) (ips : list Ipv4Addr) : Prop :=
  Permutation (file_ips file) ips.

(** [next_ip] is [self.ips.pop()]: draining yields the vector back to front;
    [total_count] is its length. *)
Definition multi_drain (ips : list Ipv4Addr) : list Ipv4Addr := rev ips.
Definition multi_total_count (ips : list Ipv4Addr) : nat := List.length ips.

(* ------------------------------------------------------------------ *)
(** ** [Args], [Scanner::new] and [main] *)

Module Cli.
(** [struct Args], after the optional TOML config replaced it. *)
Record Args := mkArgs {
  count : Z;                 (* u32 *)
  timeout : Z;               (* u64 *)
  workers : Z;               (* usize *)
  rate : Z;                  (* u32 *)
  ports : list Z;
  output : list Z;
  cidr : option (list Z);
  file : option (list Z);
  simulate : bool;
  json : bool;
  quiet : bool;
  config : list Z
}.

(** The defaults of the [#[arg]] attributes. *)
Definition default_args : Args :=
  mkArgs 1000 1500 64 500 (bytes_of "80,443,22,8080") (bytes_of "pulse_results.log")
    None None false false false (bytes_of "pulsenet.toml").
End Cli.

(** [Scanner::new] *)
Definition scanner_new (args : Cli.Args) : Scanner :=
  mkScanner (filter_map (fun s => parse_u16 (trim s)) (split_on 44 (Cli.ports args)))
    (Cli.timeout args) (Cli.simulate args).

Definition found_ips_txt : list Z := bytes_of "found_ips.txt".

(** [tokio::sync::Semaphore::MAX_PERMITS] = [usize::MAX >> 3] (64-bit). *)
Definition MAX_PERMITS : Z := Z.shiftr (2 ^ 64 - 1) 3.

(** What [main] does that the world can see. *)
Inductive Event :=
| EOpen (path : list Z)            (* a sink opened for appending *)
| EMaterialize (n : nat)           (* the source drained into [ips] *)
| EProbe (ip : Ipv4Addr).          (* [sc.check_ip(ip)] started *)

Inductive Exit :=
| ExitOk (st : Stats)              (* [Ok(())], with the final stats *)
| ExitErr (path : list Z)          (* [Err] from the [?] on an open *)
| ExitPanic
| ExitHang.                        (* a permit that is never granted *)

Fixpoint collect {A} (l : list (option A)) : option (list A) :=
  match l with
  | [] => Some []
  | None :: _ => None
  | Some x :: rest => option_map (cons x) (collect rest)
  end.

(** [main] after the arguments are fixed. [can_open] tells which paths
    [OpenOptions::new().create(true).append(true).open] opens; [drained] is
    what [while let Some(ip) = source.next_ip()] collected; [probe_env] is the
    network and randomness each probe meets; [completion] is the order in
    which [buffer_unordered(2048)] yields the results. Terminal output does
    not change the run and is left out. *)
Definition main_run (args : Cli.Args) (can_open : list Z -> bool)
    (drained : list Ipv4Addr) (probe_env : Ipv4Addr -> ProbeEnv)
    (completion : list (Ipv4Addr * ProbeResult) -> list (Ipv4Addr * ProbeResult))
    : Exit * list Event :=
  let scanner := scanner_new args in
  if negb (can_open (Cli.output args)) then (ExitErr (Cli.output args), [])
  else if negb (can_open found_ips_txt) then
    (ExitErr found_ips_txt, [EOpen (Cli.output args)])
  else
    let evs := [EOpen (Cli.output args); EOpen found_ips_txt;
                EMaterialize (List.length drained)] in
    (* NonZeroU32::new(args.rate).unwrap() *)
    if Cli.rate args =? 0 then (ExitPanic, evs)
    (* Semaphore::new(args.workers) *)
    else if MAX_PERMITS <? Cli.workers args then (ExitPanic, evs)
    else match drained with
    | _ :: _ => if Cli.workers args =? 0 then (ExitHang, evs) else
      let evs := evs ++ map EProbe drained in
      match collect (map (fun ip => option_map (fun r => (ip, fst r))
                                      (check_ip scanner ip (probe_env ip))) drained) with
      | None => (ExitPanic, evs)
      | Some results => (ExitOk (aggregate stats_default (completion results)), evs)
      end
    | [] => (ExitOk stats_default, evs)
    end.

(* ------------------------------------------------------------------ *)
(** ** Display of numbers and addresses, and what the loop writes *)

(** [<u8/u16/u128 as Display>::fmt] for a non-negative value: decimal digits,
    most significant first, ["0"] for zero. [fuel] bounds the number of
    digits. *)
Fixpoint dec_fuel (fuel : nat) (n : Z) (acc : list Z) : list Z :=
  match fuel with
  | O => acc
  | S f =>
      let acc' := (48 + n mod 10) :: acc in
      if n <? 10 then acc' else dec_fuel f (n / 10) acc'
  end.

Definition u_dec (n : Z) : list Z := dec_fuel (S (Z.to_nat (Z.log2 n))) n [].

(** [<Ipv4Addr as Display>::fmt] with no width or precision:
    [write!(f, "{}.{}.{}.{}", octets...)]. *)
Definition ipv4_to_string (ip : Ipv4Addr) : list Z :=
  u_dec (octet ip 0) ++ [46] ++ u_dec (octet ip 1) ++ [46] ++
  u_dec (octet ip 2) ++ [46] ++ u_dec (octet ip 3).

(** [serde_json]'s string escaping (its [ESCAPE] table): the quote (34) and
    the backslash (92) get a backslash before them; bytes 8, 9, 10, 12, 13
    become [\b \t \n \f \r]; other bytes below 0x20 become [\u00XX] with
    lower-case hex digits; every other byte is unchanged. *)
Definition hex_digit (v : Z) : Z := if v <? 10 then 48 + v else 87 + v.

Definition json_escape_byte (b : Z) : list Z :=
  if b =? 34 then [92; 34]
  else if b =? 92 then [92; 92]
  else if b =? 8 then [92; 98]
  else if b =? 9 then [92; 116]
  else if b =? 10 then [92; 110]
  else if b =? 12 then [92; 102]
  else if b =? 13 then [92; 114]
  else if b <? 32 then [92; 117; 48; 48; hex_digit (b / 16); hex_digit (b mod 16)]
  else [b].

Definition json_string (s : list Z) : list Z := [34] ++ flat_map json_escape_byte s ++ [34].

(** [serde_json::to_string(&ScanResult { timestamp, ip, port, latency_ms })]:
    the fields in declaration order, compact. *)
Definition scan_result_json (ts : list Z) (ip : Ipv4Addr) (port lat : Z) : list Z :=
  [123] ++ json_string (bytes_of "timestamp") ++ [58] ++ json_string ts ++ [44] ++
  json_string (bytes_of "ip") ++ [58] ++ json_string (ipv4_to_string ip) ++ [44] ++
  json_string (bytes_of "port") ++ [58] ++ u_dec port ++ [44] ++
  json_string (bytes_of "latency_ms") ++ [58] ++ u_dec lat ++ [125].

(** [writeln!(file, "[{}] {}, Port: {}, Latency: {}ms", ts_full, ip, port, lat)]
    without the newline. *)
Definition text_log_line (ts : list Z) (ip : Ipv4Addr) (port lat : Z) : list Z :=
  [91] ++ ts ++ bytes_of "] " ++ ipv4_to_string ip ++ bytes_of ", Port: " ++ u_dec port ++
  bytes_of ", Latency: " ++ u_dec lat ++ bytes_of "ms".

(** The writes of one iteration of the aggregator loop: the bytes appended
    to [args.output] and to [found_ips.txt], given the [ts_full] that
    [Local::now()] formatted for it. The [writeln!] results are discarded by
    [let _ =]; the model follows writes that succeed. *)
Definition sink_step (simulate json : bool) (ts : list Z) (item : Ipv4Addr * ProbeResult)
    : list Z * list Z :=
  let '(ip, (port_found, latency, _)) := item in
  match port_found with
  | Some port =>
      let lat := match latency with Some l => l | None => 0 end in
      if simulate then ([], [])
      else ((if json then scan_result_json ts ip port lat else text_log_line ts ip port lat)
              ++ [10],
            ipv4_to_string ip ++ [10])
  | None => ([], [])
  end.

(** The whole loop: [stamp i] is the timestamp of the [i]-th item. *)
Fixpoint sink_loop (simulate json : bool) (stamp : nat -> list Z) (i : nat)
    (stream : list (Ipv4Addr * ProbeResult)) : list Z * list Z :=
  match stream with
  | [] => ([], [])
  | item :: rest =>
      let '(l, c) := sink_step simulate json (stamp i) item in
      let '(l', c') := sink_loop simulate json stamp (S i) rest in
      (l ++ l', c ++ c')
  end.

(** The results of a stream, as the aggregator tells them apart. *)
Definition is_hit (item : Ipv4Addr * ProbeResult) : bool :=
  match item with (_, (Some _, _, _)) => true | _ => false end.

Definition is_miss_with (e : ScanError) (item : Ipv4Addr * ProbeResult) : bool :=
  match item with
  | (_, (None, _, Some e')) => ScanError_eqb e e'
  | _ => false
  end.

Definition hit_ips (stream : list (Ipv4Addr * ProbeResult)) : list Ipv4Addr :=
  map fst (filter is_hit stream).

Definition hit_latency (item : Ipv4Addr * ProbeResult) : Z :=
  match item with
  | (_, (Some _, Some l, _)) => l
  | _ => 0
  end.

Definition count_if {A} (f : A -> bool) (l : list A) : Z := Z.of_nat (List.length (filter f l)).

(** The latencies the loop adds to [total_latency], summed without wrapping. *)
Definition latency_sum (stream : list (Ipv4Addr * ProbeResult)) : Z :=
  fold_right (fun item acc => hit_latency item + acc) 0 stream.

(** The bytes a comma-separated rendering of a port list has. *)
Fixpoint join_comma (pieces : list (list Z)) : list Z :=
  match pieces with
  | [] => []
  | [p] => p
  | p :: rest => p ++ [44] ++ join_comma rest
  end.

(** Helpers for reasoning about decimal text: a byte that ends a run of
    digits, the decimal renderings checked by evaluation, and all digit
    strings of a given length. *)
Definition digit_boundary (r : list Z) : bool :=
  match r with [] => true | b :: _ => negb (is_digit b) end.

Definition dec_octet_ok (n : Z) : bool :=
  match u_dec n with
  | [] => false
  | d0 :: _ =>
      forallb is_digit (u_dec n) && (List.length (u_dec n) <=? 3)%nat &&
      (digits_value (u_dec n) =? n) && negb ((d0 =? 48) && (1 <? List.length (u_dec n))%nat)
  end.

Definition octet_text_ok (ds : list Z) : bool :=
  match ds with
  | [] => true
  | d0 :: _ =>
      if (3 <? List.length ds)%nat then true
      else if 255 <? digits_value ds then true
      else if (d0 =? 48) && (1 <? List.length ds)%nat then true
      else (0 <=? digits_value ds) &&
           (if list_eq_dec Z.eq_dec ds (u_dec (digits_value ds)) then true else false)
  end.

(** [f] holds on [start], ..., [start + n - 1]. *)
Fixpoint forall_range (f : Z -> bool) (start : Z) (n : nat) : bool :=
  match n with
  | O => true
  | S n' => f start && forall_range f (start + 1) n'
  end.

Definition digits10 : list Z := map (fun j => 48 + Z.of_nat j) (seq 0 10).

Fixpoint digit_lists (k : nat) : list (list Z) :=
  match k with
  | O => [[]]
  | S k' => flat_map (fun d => map (cons d) (digit_lists k')) digits10
  end.

(* ------------------------------------------------------------------ *)
(** ** Concrete inputs *)

(** Concrete scanners and networks used below. *)
Definition sc_default_ports : Scanner := mkScanner [80; 443; 22; 8080] 1500 false.
Definition sc_two_ports : Scanner := mkScanner [80; 443] 1500 false.
(** [--ports ssh,http]: no entry parses as a [u16]. *)
Definition args_named_ports : Cli.Args :=
  Cli.mkArgs 1000 1500 64 500 (bytes_of "ssh,http") (bytes_of "pulse_results.log")
    None None false false false (bytes_of "pulsenet.toml").
Definition sc_no_ports : Scanner := scanner_new args_named_ports.

(** The first connect is refused, every later one is reset by the peer. *)
Definition net_refused_then_reset : Net := fun _ i _ =>
  match i with
  | O => mkConnect 3 (Some KConnectionRefused)
  | S _ => mkConnect 4 (Some KConnectionReset)
  end.

(** The first connect hangs past any slice, every later one is refused. *)
Definition net_silent_then_refused : Net := fun _ i _ =>
  match i with
  | O => mkConnect 100000 None
  | S _ => mkConnect 2 (Some KConnectionRefused)
  end.

(** Ports 80 and 443 are filtered (no answer), port 22 answers after 40 ms. *)
Definition net_ssh_only : Net := fun _ _ port =>
  if port =? 22 then mkConnect 40 None else mkConnect 100000 None.

Definition env_of (n : Net) : ProbeEnv := mkProbeEnv n 50 false 0.

(** [--rate 0] with every other argument at its default. *)
Definition args_rate0 : Cli.Args :=
  Cli.mkArgs 1000 1500 64 0 (bytes_of "80,443,22,8080") (bytes_of "pulse_results.log")
    None None false false false (bytes_of "pulsenet.toml").

Definition open_all : list Z -> bool := fun _ => true.
Definition open_none : list Z -> bool := fun _ => false.

(** Draws that always read 8: every iteration yields 8.8.8.8. *)
Definition rng_eights : Rng := fun _ => Byte.x08.

(** A stream of three results: two hits around a timeout. *)
Definition stream_ex : list (Ipv4Addr * ProbeResult) :=
  [(ipv4_new 1 2 3 4, (Some 80, Some 12, None));
   (ipv4_new 5 6 7 8, (None, None, Some Timeout));
   (ipv4_new 9 9 9 9, (Some 443, Some 30, None))].

(** Timestamps with a newline inside. *)
Definition stamp_nl : nat -> list Z := fun _ => bytes_of "2026" ++ [10] ++ bytes_of "01".

(** Timestamps as [%Y-%m-%d %H:%M:%S] prints them. *)
Definition stamp_plain : nat -> list Z := fun _ => bytes_of "2026-10-15 12:00:00".

Example is_public_8888 : filter.is_public_ipv4 (ipv4_new 8 8 8 8) = true.
Proof. reflexivity. Qed.
Example is_public_192168 : filter.is_public_ipv4 (ipv4_new 192 168 1 1) = false.
Proof. reflexivity. Qed.
Example is_public_100_63 : filter.is_public_ipv4 (ipv4_new 100 63 0 1) = true.
Proof. reflexivity. Qed.
Example excluded_100_127 : spec_excluded (ipv4_new 100 127 255 255) = true.
Proof. reflexivity. Qed.

(* ------------------------------------------------------------------ *)
(** ** Octet arithmetic on 32-bit addresses *)

(** Closed constants are replaced by their values through [replace], never
    through conversion of open terms (which makes the kernel unfold [Z.div]). *)
Ltac eval_closed t :=
  let v := eval vm_compute in t in
  replace t with v by (vm_compute; reflexivity).

Ltac eval_pows :=
  repeat match goal with
  | |- context [2 ^ ?k] => eval_closed (2 ^ k)
  | |- context [Z.ones ?k] => eval_closed (Z.ones k)
  end.

Lemma octets_of_range (ip : Ipv4Addr) : 0 <= ip < 2 ^ 32 ->
  octet ip 0 = ip / 16777216 /\ octet ip 1 = (ip / 65536) mod 256 /\
  octet ip 2 = (ip / 256) mod 256.
Proof.
  intros Hip. unfold octet, octets; cbn [nth].
  rewrite !Z.shiftr_div_pow2 by lia.
  replace 255 with (Z.ones 8) by reflexivity. rewrite !Z.land_ones by lia.
  eval_pows.
  split; [|split; reflexivity].
  apply Z.mod_small. split; [apply Z.div_pos; lia|].
  apply Z.div_lt_upper_bound; lia.
Qed.

(** A range bound on a closed value, decided by evaluation. *)
Ltac range_by_eval :=
  split; [apply Z.leb_le | apply Z.ltb_lt]; vm_compute; reflexivity.

(** Each excluded CIDR block, read on the octets the code matches on. *)
Ltac cidr_arith :=
  let Hip := fresh in
  intros Hip; unfold in_cidr;
  match goal with
  | |- context [Z.shiftr (ipv4_new ?a ?b ?c ?d) ?k] =>
      eval_closed (Z.shiftr (ipv4_new a b c d) k)
  end;
  match goal with |- context [32 - ?k] => eval_closed (32 - k) end;
  destruct (octets_of_range _ Hip) as (H0 & H1 & H2); rewrite ?H0, ?H1, ?H2;
  rewrite Z.shiftr_div_pow2 by lia; eval_pows;
  repeat match goal with
  | |- context [Z.eqb ?x ?y] => destruct (Z.eqb_spec x y)
  | |- context [Z.leb ?x ?y] => destruct (Z.leb_spec x y)
  end; simpl; try reflexivity; exfalso; Z.div_mod_to_equations; lia.

Lemma cidr_10 ip : 0 <= ip < 2 ^ 32 ->
  in_cidr ip (ipv4_new 10 0 0 0) 8 = (octet ip 0 =? 10).
Proof. cidr_arith. Qed.

Lemma cidr_127 ip : 0 <= ip < 2 ^ 32 ->
  in_cidr ip (ipv4_new 127 0 0 0) 8 = (octet ip 0 =? 127).
Proof. cidr_arith. Qed.

Lemma cidr_cgnat ip : 0 <= ip < 2 ^ 32 ->
  in_cidr ip (ipv4_new 100 64 0 0) 10 =
  (octet ip 0 =? 100) && ((64 <=? octet ip 1) && (octet ip 1 <=? 127)).
Proof. cidr_arith. Qed.

Lemma cidr_linklocal ip : 0 <= ip < 2 ^ 32 ->
  in_cidr ip (ipv4_new 169 254 0 0) 16 =
  (octet ip 0 =? 169) && (octet ip 1 =? 254).
Proof. cidr_arith. Qed.

Lemma cidr_172 ip : 0 <= ip < 2 ^ 32 ->
  in_cidr ip (ipv4_new 172 16 0 0) 12 =
  (octet ip 0 =? 172) && ((16 <=? octet ip 1) && (octet ip 1 <=? 31)).
Proof. cidr_arith. Qed.

Lemma cidr_192168 ip : 0 <= ip < 2 ^ 32 ->
  in_cidr ip (ipv4_new 192 168 0 0) 16 =
  (octet ip 0 =? 192) && (octet ip 1 =? 168).
Proof. cidr_arith. Qed.

Lemma cidr_test1 ip : 0 <= ip < 2 ^ 32 ->
  in_cidr ip (ipv4_new 192 0 2 0) 24 =
  (octet ip 0 =? 192) && ((octet ip 1 =? 0) && (octet ip 2 =? 2)).
Proof. cidr_arith. Qed.

Lemma cidr_test2 ip : 0 <= ip < 2 ^ 32 ->
  in_cidr ip (ipv4_new 198 51 100 0) 24 =
  (octet ip 0 =? 198) && ((octet ip 1 =? 51) && (octet ip 2 =? 100)).
Proof. cidr_arith. Qed.

Lemma cidr_test3 ip : 0 <= ip < 2 ^ 32 ->
  in_cidr ip (ipv4_new 203 0 113 0) 24 =
  (octet ip 0 =? 203) && ((octet ip 1 =? 0) && (octet ip 2 =? 113)).
Proof. cidr_arith. Qed.

Lemma first_octet_shift ip : 0 <= ip < 2 ^ 32 -> Z.shiftr ip 24 = octet ip 0.
Proof.
  intros Hip. destruct (octets_of_range _ Hip) as (-> & _).
  rewrite Z.shiftr_div_pow2 by lia. eval_pows. reflexivity.
Qed.

Lemma spec_excluded_octets ip : 0 <= ip < 2 ^ 32 ->
  spec_excluded ip =
  (octet ip 0 =? 10)
  || (octet ip 0 =? 100) && ((64 <=? octet ip 1) && (octet ip 1 <=? 127))
  || (octet ip 0 =? 127)
  || (octet ip 0 =? 169) && (octet ip 1 =? 254)
  || (octet ip 0 =? 172) && ((16 <=? octet ip 1) && (octet ip 1 <=? 31))
  || (octet ip 0 =? 192) && (octet ip 1 =? 168)
  || (octet ip 0 =? 192) && ((octet ip 1 =? 0) && (octet ip 2 =? 2))
  || (octet ip 0 =? 198) && ((octet ip 1 =? 51) && (octet ip 2 =? 100))
  || (octet ip 0 =? 203) && ((octet ip 1 =? 0) && (octet ip 2 =? 113))
  || (224 <=? octet ip 0).
Proof.
  intros Hip. unfold spec_excluded.
  rewrite cidr_10, cidr_cgnat, cidr_127, cidr_linklocal, cidr_172, cidr_192168,
    cidr_test1, cidr_test2, cidr_test3, first_octet_shift by exact Hip.
  reflexivity.
Qed.

(* ------------------------------------------------------------------ *)
(** ** Facts about the port loop *)

Section PortLoop.

Variables (n : Net) (ip : Ipv4Addr) (pt : Z).

Lemma port_loop_shape ps : forall idx el le res tr,
  port_loop n ip pt idx ps el le = (res, tr) ->
  (forall i a, nth_error tr i = Some a ->
     exists p, nth_error ps i = Some p /\ att_port a = p /\ att_timeout a = pt /\
       (att_outcome a, att_dur a) = tokio_timeout pt (n ip (idx + i)%nat p)) /\
  (forall i a, nth_error tr i = Some a -> att_outcome a = TOk -> S i = List.length tr) /\
  match res with
  | (Some p, Some lat, None) =>
      exists pre a, tr = pre ++ [a] /\ att_port a = p /\ att_outcome a = TOk /\
        lat = el + trace_time tr
  | (None, None, _) =>
      List.length tr = List.length ps /\ (forall a, In a tr -> att_outcome a <> TOk)
  | _ => False
  end.
Proof.
  induction ps as [|port rest IH]; intros idx el le res tr Hrun; simpl in Hrun.
  - inversion Hrun; subst. split; [|split].
    + intros [|i] a H; discriminate H.
    + intros [|i] a H; discriminate H.
    + split; [reflexivity|]. intros a [].
  - destruct (tokio_timeout pt (n ip idx port)) as [r d] eqn:Ht.
    destruct r as [|k|].
    + inversion Hrun; subst. split; [|split].
      * intros [|i] a H; [|destruct i; discriminate H].
        inversion H; subst. exists port. rewrite Nat.add_0_r, Ht. auto.
      * intros [|i] a H _; [reflexivity|destruct i; discriminate H].
      * exists [], (mkAttempt port pt TOk d). simpl. repeat split. lia.
    + destruct (port_loop n ip pt (S idx) rest (el + d) (Some (classify k)))
        as [res' tr'] eqn:Hr.
      inversion Hrun; subst.
      destruct (IH _ _ _ _ _ Hr) as (Hsh & Hlast & Hres). split; [|split].
      * intros [|i] a H.
        -- inversion H; subst. exists port. rewrite Nat.add_0_r, Ht. auto.
        -- destruct (Hsh i a H) as (p & Hp & E). exists p. split; [exact Hp|].
           rewrite Nat.add_succ_r. exact E.
      * intros [|i] a H Hok; [inversion H; subst; discriminate Hok|].
        simpl. f_equal. exact (Hlast i a H Hok).
      * destruct res as [[[p|] [lat|]] [e|]]; try exact Hres.
        -- destruct Hres as (pre & a & -> & Hp & Ha & Hl).
           exists (mkAttempt port pt (TErr k) d :: pre), a. simpl.
           repeat split; auto. rewrite Hl. simpl. lia.
        -- destruct Hres as (Hl & Hn). split; [simpl; f_equal; exact Hl|].
           intros a [<-|Ha]; [discriminate|exact (Hn a Ha)].
        -- destruct Hres as (Hl & Hn). split; [simpl; f_equal; exact Hl|].
           intros a [<-|Ha]; [discriminate|exact (Hn a Ha)].
    + destruct (port_loop n ip pt (S idx) rest (el + d)
        (match le with None => Some Timeout | Some _ => le end)) as [res' tr'] eqn:Hr.
      inversion Hrun; subst.
      destruct (IH _ _ _ _ _ Hr) as (Hsh & Hlast & Hres). split; [|split].
      * intros [|i] a H.
        -- inversion H; subst. exists port. rewrite Nat.add_0_r, Ht. auto.
        -- destruct (Hsh i a H) as (p & Hp & E). exists p. split; [exact Hp|].
           rewrite Nat.add_succ_r. exact E.
      * intros [|i] a H Hok; [inversion H; subst; discriminate Hok|].
        simpl. f_equal. exact (Hlast i a H Hok).
      * destruct res as [[[p|] [lat|]] [e|]]; try exact Hres.
        -- destruct Hres as (pre & a & -> & Hp & Ha & Hl).
           exists (mkAttempt port pt TElapsed d :: pre), a. simpl.
           repeat split; auto. rewrite Hl. simpl. lia.
        -- destruct Hres as (Hl & Hn). split; [simpl; f_equal; exact Hl|].
           intros a [<-|Ha]; [discriminate|exact (Hn a Ha)].
        -- destruct Hres as (Hl & Hn). split; [simpl; f_equal; exact Hl|].
           intros a [<-|Ha]; [discriminate|exact (Hn a Ha)].
Qed.

Lemma port_loop_miss_reason ps : forall idx el le r tr,
  port_loop n ip pt idx ps el le = ((None, None, r), tr) ->
  r = match last_explicit_error tr with
      | Some e => Some e
      | None =>
          if some_timeout tr then match le with None => Some Timeout | Some _ => le end
          else le
      end.
Proof.
  induction ps as [|port rest IH]; intros idx el le r tr Hrun; simpl in Hrun.
  - inversion Hrun; subst. reflexivity.
  - destruct (tokio_timeout pt (n ip idx port)) as [[|k|] d] eqn:Ht.
    + discriminate Hrun.
    + destruct (port_loop n ip pt (S idx) rest (el + d) (Some (classify k)))
        as [res' tr'] eqn:Hr.
      inversion Hrun; subst.
      rewrite (IH _ _ _ _ _ Hr). simpl.
      destruct (last_explicit_error tr'); [reflexivity|].
      destruct (some_timeout tr'); reflexivity.
    + destruct (port_loop n ip pt (S idx) rest (el + d)
        (match le with None => Some Timeout | Some _ => le end)) as [res' tr'] eqn:Hr.
      inversion Hrun; subst.
      rewrite (IH _ _ _ _ _ Hr). simpl.
      destruct (last_explicit_error tr'); [reflexivity|].
      destruct (some_timeout tr'), le; reflexivity.
Qed.

Lemma port_loop_refused ps : forall idx el le,
  all_refused_or_elapsed n ip pt idx ps ->
  le <> Some Unreachable ->
  (le = Some ConnectionRefused \/
   exists i p, nth_error ps i = Some p /\
     fst (tokio_timeout pt (n ip (idx + i)%nat p)) = TErr KConnectionRefused) ->
  fst (port_loop n ip pt idx ps el le) = (None, None, Some ConnectionRefused).
Proof.
  induction ps as [|port rest IH]; intros idx el le Hall Hle Hsome; simpl.
  - destruct Hsome as [->|(i & p & Hp & _)]; [reflexivity|destruct i; discriminate Hp].
  - assert (Hrest : all_refused_or_elapsed n ip pt (S idx) rest).
    { intros i p Hp. replace (S idx + i)%nat with (idx + S i)%nat by lia.
      exact (Hall (S i) p Hp). }
    destruct (Hall 0%nat port eq_refl) as [H0|H0]; rewrite Nat.add_0_r in H0;
      destruct (tokio_timeout pt (n ip idx port)) as [r d] eqn:Ht; simpl in H0; subst r.
    + destruct (port_loop n ip pt (S idx) rest (el + d)
        (match le with None => Some Timeout | Some _ => le end)) as [res' tr'] eqn:Hr.
      change res' with (fst (res', tr')). rewrite <- Hr. apply IH; [exact Hrest| |].
      * destruct le; [exact Hle|discriminate].
      * destruct Hsome as [->|(i & p & Hp & Hi)]; [left; reflexivity|].
        destruct i as [|i].
        -- simpl in Hp. inversion Hp; subst. rewrite Nat.add_0_r, Ht in Hi. discriminate Hi.
        -- right. exists i, p. split; [exact Hp|].
           replace (S idx + i)%nat with (idx + S i)%nat by lia. exact Hi.
    + destruct (port_loop n ip pt (S idx) rest (el + d) (Some (classify KConnectionRefused)))
        as [res' tr'] eqn:Hr.
      change res' with (fst (res', tr')). rewrite <- Hr. apply IH; [exact Hrest| |].
      * discriminate.
      * left; reflexivity.
Qed.

(** With a non-empty port list, or a reason already recorded, the loop returns
    a port or a reason. *)
Lemma port_loop_decided ps : forall idx el le,
  (ps <> [] \/ le <> None) ->
  match fst (port_loop n ip pt idx ps el le) with
  | (Some _, _, _) | (None, _, Some _) => True
  | (None, _, None) => False
  end.
Proof.
  induction ps as [|port rest IH]; intros idx el le Hne; simpl.
  - destruct Hne as [Hne|Hne]; [congruence|]. destruct le; [exact I|congruence].
  - destruct (tokio_timeout pt (n ip idx port)) as [[|k|] d]; [exact I| |].
    + destruct (port_loop n ip pt (S idx) rest (el + d) (Some (classify k)))
        as [res' tr'] eqn:Hr.
      change res' with (fst (res', tr')). rewrite <- Hr. apply IH. right; discriminate.
    + destruct (port_loop n ip pt (S idx) rest (el + d)
        (match le with None => Some Timeout | Some _ => le end)) as [res' tr'] eqn:Hr.
      change res' with (fst (res', tr')). rewrite <- Hr. apply IH. right.
      destruct le; discriminate.
Qed.

End PortLoop.

Lemma u32_inc_small x : 0 <= x -> x + 1 < 2 ^ 32 -> u32_inc x = x + 1.
Proof. intros. unfold u32_inc. apply Z.mod_small. lia. Qed.

Lemma aggregate_inv stream : forall st,
  stats_inv st ->
  total_processed st + Z.of_nat (List.length stream) < 2 ^ 32 ->
  Forall (fun item => decided (snd item)) stream ->
  stats_inv (aggregate st stream).
Proof.
  induction stream as [|[ip [[port_found latency] error]] rest IH];
    intros st Hinv Hlen Hdec; [exact Hinv|].
  inversion Hdec as [|? ? Hd Hrest]; subst. simpl in Hd.
  change (stats_inv (aggregate (aggregate_step st (ip, (port_found, latency, error))) rest)).
  apply IH; [| |exact Hrest].
  - destruct Hinv as (H1 & H2 & H3 & H4 & H5). unfold stats_sum in H5.
    simpl List.length in Hlen.
    unfold aggregate_step, stats_inv, stats_sum; cbn.
    destruct port_found as [p|]; [|destruct error as [[| |]|]; [| | |contradiction]];
      cbn; rewrite ?u32_inc_small by lia; lia.
  - destruct Hinv as (H1 & H2 & H3 & H4 & H5). unfold stats_sum in H5.
    simpl List.length in Hlen.
    assert (Htp : total_processed (aggregate_step st (ip, (port_found, latency, error)))
                  = total_processed st + 1).
    { unfold aggregate_step.
      destruct port_found; [|destruct error as [[| |]|]]; cbn;
        apply u32_inc_small; lia. }
    rewrite Htp. lia.
Qed.

Lemma check_ip_decided sc ip env r tr :
  (simulate sc = true \/ ports sc <> []) ->
  check_ip sc ip env = Some (r, tr) -> decided r.
Proof.
  intros Hcfg Hrun. unfold check_ip in Hrun.
  destruct (simulate sc) eqn:Hsim.
  - destruct (sim_hit env); [destruct (ports sc); [discriminate|]|];
      inversion Hrun; subst; exact I.
  - destruct Hcfg as [Hcfg|Hne]; [discriminate|].
    inversion Hrun; subst.
    pose proof (port_loop_decided (net env) ip (port_timeout_of sc) (ports sc) 0 0 None
                  (or_introl Hne)) as Hd.
    rewrite H0 in Hd. simpl in Hd.
    destruct r as [[[p|] l] [e|]]; exact I || contradiction.
Qed.

Lemma gen_public_is_public rng pos ip pos' :
  gen_public rng pos ip pos' -> filter.is_public_ipv4 ip = true.
Proof. induction 1; assumption. Qed.

Lemma random_calls_spec rng s pos outs s' pos' :
  random_calls rng s pos outs s' pos' ->
  rs_count s' = rs_count s /\
  forall i o, nth_error outs i = Some o ->
    (rs_current s + Z.of_nat i < rs_count s ->
       exists ip, o = Some ip /\ filter.is_public_ipv4 ip = true) /\
    (rs_count s <= rs_current s + Z.of_nat i -> o = None).
Proof.
  induction 1 as [s pos|s pos o s1 pos1 outs s' pos' Hnext Hcalls IH].
  - split; [reflexivity|]. intros [|i] o H; discriminate H.
  - destruct IH as (Hcnt & Hout).
    inversion Hnext as [? ? Hle|? ? ip ? Hlt Hgen]; subst.
    + split; [exact Hcnt|]. intros [|i] o' H.
      * simpl in H. injection H as <-. split; [intros; lia|reflexivity].
      * simpl in H. specialize (Hout i o' H). split; [intros; lia|].
        intros _. apply Hout. lia.
    + simpl in Hcnt. split; [exact Hcnt|]. intros [|i] o' H.
      * simpl in H. injection H as <-. split.
        -- intros _. exists ip. split; [reflexivity|exact (gen_public_is_public _ _ _ _ Hgen)].
        -- intros; lia.
      * simpl in H. specialize (Hout i o' H). simpl in Hout. split.
        -- intros Hi. apply Hout. lia.
        -- intros Hi. apply Hout. lia.
Qed.

(* ------------------------------------------------------------------ *)
(** ** Network and broadcast addresses as arithmetic *)

Lemma testbit_high x n i : 0 <= n -> 0 <= x < 2 ^ n -> n <= i -> Z.testbit x i = false.
Proof.
  intros Hn Hx Hi. rewrite <- (Z.mod_small x (2 ^ n)) by lia.
  apply Z.mod_pow2_bits_high. lia.
Qed.

Lemma lt_pow2_of_bits x n : 0 <= n -> 0 <= x ->
  (forall i, n <= i -> Z.testbit x i = false) -> x < 2 ^ n.
Proof.
  intros Hn Hx Hbits.
  assert (E : x mod 2 ^ n = x).
  { apply Z.bits_inj'. intros i Hi. destruct (Z.ltb_spec i n).
    - apply Z.mod_pow2_bits_low. lia.
    - rewrite Z.mod_pow2_bits_high by lia. symmetry. apply Hbits. lia. }
  rewrite <- E. apply Z.mod_pos_bound. apply Z.pow_pos_nonneg; lia.
Qed.

Lemma u32_max_ones : u32_max = Z.ones 32.
Proof. reflexivity. Qed.

Section Net.

Variable n : Ipv4Net.
Hypothesis addr_range_ok : 0 <= net_addr n < 2 ^ 32.
Hypothesis prefix_ok : 0 <= prefix_len n <= 32.

Let k := 32 - prefix_len n.

Lemma network_arith : network n = net_addr n / 2 ^ k * 2 ^ k.
Proof.
  unfold network, netmask. subst k.
  destruct (Z.eqb_spec (prefix_len n) 0) as [Hp|Hp].
  - rewrite Hp, Z.land_0_r. rewrite Z.div_small by (simpl; lia). reflexivity.
  - rewrite <- Z.shiftr_div_pow2, <- Z.shiftl_mul_pow2 by lia.
    apply Z.bits_inj'. intros i Hi.
    rewrite !Z.land_spec, u32_max_ones.
    rewrite (Z.shiftl_spec (Z.ones 32)), (Z.shiftl_spec (Z.shiftr _ _)) by lia.
    rewrite (Z.testbit_ones_nonneg 32 i) by lia.
    destruct (Z.ltb_spec (i - (32 - prefix_len n)) 0) as [Hlt|Hge].
    + rewrite !(Z.testbit_neg_r _ (i - (32 - prefix_len n))) by lia.
      rewrite andb_false_r. reflexivity.
    + rewrite Z.testbit_ones_nonneg, Z.shiftr_spec by lia.
      replace (i - (32 - prefix_len n) + (32 - prefix_len n)) with i by lia.
      destruct (Z.ltb_spec i 32).
      * replace (i - (32 - prefix_len n) <? 32) with true by (symmetry; apply Z.ltb_lt; lia).
        rewrite !andb_true_r. reflexivity.
      * rewrite (testbit_high (net_addr n) 32 i) by lia. reflexivity.
Qed.

Lemma broadcast_arith : broadcast n = network n + 2 ^ k - 1.
Proof.
  rewrite network_arith. unfold broadcast, hostmask. subst k.
  destruct (Z.eqb_spec (prefix_len n) 32) as [Hp|Hp].
  - rewrite Hp, Z.lor_0_r. simpl. rewrite Z.div_1_r. lia.
  - rewrite <- Z.shiftr_div_pow2, <- Z.shiftl_mul_pow2 by lia.
    assert (Hor : Z.lor (net_addr n) (Z.shiftr u32_max (prefix_len n)) =
                  Z.lor (Z.shiftl (Z.shiftr (net_addr n) (32 - prefix_len n)) (32 - prefix_len n))
                        (Z.ones (32 - prefix_len n))).
    { apply Z.bits_inj'. intros i Hi.
      rewrite !Z.lor_spec, u32_max_ones, Z.shiftr_spec, Z.shiftl_spec by lia.
      rewrite !Z.testbit_ones_nonneg by lia.
      destruct (Z.ltb_spec i (32 - prefix_len n)) as [Hlt|Hge].
      - replace (i + prefix_len n <? 32) with true by (symmetry; apply Z.ltb_lt; lia).
        rewrite !orb_true_r. reflexivity.
      - replace (i + prefix_len n <? 32) with false by (symmetry; apply Z.ltb_ge; lia).
        rewrite Z.shiftr_spec by lia.
        replace (i - (32 - prefix_len n) + (32 - prefix_len n)) with i by lia.
        rewrite !orb_false_r. reflexivity. }
    rewrite Hor, <- Z.lxor_lor, <- Z.add_nocarry_lxor.
    + rewrite Z.ones_equiv. lia.
    + rewrite Z.land_ones, Z.shiftl_mul_pow2 by lia. apply Z.mod_mul.
      apply Z.pow_nonzero; lia.
    + rewrite Z.land_ones, Z.shiftl_mul_pow2 by lia. apply Z.mod_mul.
      apply Z.pow_nonzero; lia.
Qed.

Lemma broadcast_bound : broadcast n < 2 ^ 32.
Proof.
  apply lt_pow2_of_bits; [lia| |].
  - unfold broadcast, hostmask. apply Z.lor_nonneg. split; [lia|].
    destruct (prefix_len n =? 32); [lia|]. apply Z.shiftr_nonneg. unfold u32_max. lia.
  - intros i Hi. unfold broadcast. rewrite Z.lor_spec.
    rewrite (testbit_high (net_addr n) 32 i) by lia. simpl.
    unfold hostmask. destruct (prefix_len n =? 32); [apply Z.bits_0|].
    rewrite u32_max_ones, Z.shiftr_spec, Z.testbit_ones_nonneg by lia.
    apply Z.ltb_ge. lia.
Qed.

End Net.

Lemma in_addr_range x s e : In x (addr_range s e) <-> s <= x <= e.
Proof.
  unfold addr_range. rewrite in_map_iff. split.
  - intros (j & <- & Hj). apply in_seq in Hj. lia.
  - intros Hx. exists (Z.to_nat (x - s)). split; [lia|]. apply in_seq. lia.
Qed.

(** [Ipv4Net::hosts] on a well-formed network: the addresses of the block,
    without its first and last below /31. *)
Lemma hosts_spec n x :
  0 <= net_addr n < 2 ^ 32 -> 0 <= prefix_len n <= 32 ->
  let k := 32 - prefix_len n in
  let net0 := net_addr n / 2 ^ k * 2 ^ k in
  In x (hosts n) <->
  (net0 <= x <= net0 + 2 ^ k - 1 /\
   (31 <= prefix_len n \/ (x <> net0 /\ x <> net0 + 2 ^ k - 1))).
Proof.
  intros Ha Hp k net0.
  pose proof (network_arith n Ha Hp) as Hnet.
  pose proof (broadcast_arith n Ha Hp) as Hbc.
  pose proof (broadcast_bound n Ha Hp) as Hbb.
  fold k in Hnet, Hbc. fold net0 in Hnet.
  assert (Hk : 1 <= 2 ^ k) by (apply (Z.pow_le_mono_r 2 0 k); lia).
  assert (H0 : 0 <= net0)
    by (apply Z.mul_nonneg_nonneg; [apply Z.div_pos|]; lia).
  clearbody net0.
  unfold hosts. destruct (Z.ltb_spec (prefix_len n) 31) as [Hlt|Hge].
  - assert (Hk4 : 4 <= 2 ^ k) by (apply (Z.pow_le_mono_r 2 2 k); lia).
    rewrite in_addr_range. unfold u32_max. rewrite Hbc, Hnet in *.
    rewrite Z.min_l by lia. rewrite Z.max_l by lia. lia.
  - rewrite in_addr_range. rewrite Hbc, Hnet. lia.
Qed.

(** The parsers' numbers stay below their bound. *)
Lemma ipnet_read_number_acc_range md upto : forall s count r v rest,
  ipnet_read_number_acc md upto count r s = Some (v, rest) ->
  0 <= r < upto -> 0 <= v < upto.
Proof.
  induction s as [|b s IH]; intros count r v rest H Hr; simpl in H.
  - destruct count; [discriminate|]. injection H as <- <-. exact Hr.
  - destruct (is_digit b) eqn:Hd.
    + destruct (upto <=? r * 10 + (b - 48)) eqn:Hc.
      { rewrite orb_true_r in H. discriminate. }
      rewrite orb_false_r in H. destruct (md <? S count)%nat; [discriminate|].
      apply Z.leb_gt in Hc.
      unfold is_digit in Hd. apply andb_true_iff in Hd as [Hd1 _].
      apply Z.leb_le in Hd1.
      eapply IH; [exact H|]. lia.
    + destruct count; [discriminate|]. injection H as <- <-. exact Hr.
Qed.

Lemma ipv4_new_range a b c d :
  0 <= a < 256 -> 0 <= b < 256 -> 0 <= c < 256 -> 0 <= d < 256 ->
  0 <= ipv4_new a b c d < 2 ^ 32.
Proof.
  intros Ha Hb Hc Hd.
  assert (H8 : 2 ^ 8 = 256) by reflexivity.
  assert (Hnn : 0 <= ipv4_new a b c d)
    by (unfold ipv4_new; rewrite !Z.lor_nonneg, !Z.shiftl_nonneg; lia).
  split; [exact Hnn|]. apply lt_pow2_of_bits; [lia|exact Hnn|].
  intros i Hi. unfold ipv4_new.
  rewrite !Z.lor_spec, !Z.shiftl_spec by lia.
  rewrite (testbit_high a 8), (testbit_high b 8), (testbit_high c 8), (testbit_high d 8)
    by lia.
  reflexivity.
Qed.

Lemma parse_ipv4net_bounds s n : parse_ipv4net s = Some n ->
  0 <= net_addr n < 2 ^ 32 /\ 0 <= prefix_len n <= 32.
Proof.
  unfold parse_ipv4net, ipnet_read_number. intros H.
  repeat match goal with
  | H : None = Some _ |- _ => discriminate H
  | H : Some _ = Some _ |- _ => injection H as <-
  | H : context [match ?x with _ => _ end] |- _ =>
      destruct x eqn:?; cbv beta iota in H
  end.
  repeat match goal with
  | H : ipnet_read_number_acc _ _ _ _ _ = Some _ |- _ =>
      let R := fresh "R" in
      pose proof (ipnet_read_number_acc_range _ _ _ _ _ _ _ H) as R;
      specialize (R ltac:(lia)); clear H
  end.
  simpl. split; [apply ipv4_new_range|]; lia.
Qed.

Lemma fold_entry_hosts l : forall acc,
  fold_left (fun ips s =>
               match parse_ipv4net (trim s) with
               | Some net => ips ++ hosts net
               | None => ips
               end) l acc = acc ++ flat_map cidr_entry_hosts l.
Proof.
  induction l as [|p l IH]; intros acc; simpl.
  - rewrite app_nil_r. reflexivity.
  - rewrite IH. unfold cidr_entry_hosts.
    destruct (parse_ipv4net (trim p)); simpl.
    + rewrite app_assoc. reflexivity.
    + reflexivity.
Qed.

Lemma cidr_hosts_flat_map s : cidr_hosts s = flat_map cidr_entry_hosts (split_on 44 s).
Proof. unfold cidr_hosts. rewrite fold_entry_hosts. reflexivity. Qed.

Lemma fold_file_ips l : forall acc,
  fold_left (fun ips line =>
               match parse_ipv4 (trim line) with
               | Some ip => ips ++ [ip]
               | None => ips
               end) l acc = acc ++ filter_map (fun line => parse_ipv4 (trim line)) l.
Proof.
  induction l as [|line l IH]; intros acc; simpl.
  - rewrite app_nil_r. reflexivity.
  - rewrite IH. destruct (parse_ipv4 (trim line)).
    + rewrite <- app_assoc. reflexivity.
    + reflexivity.
Qed.

(* ------------------------------------------------------------------ *)
(** ** Decimal text and addresses *)

Lemma take_digits_app ds r :
  forallb is_digit ds = true -> digit_boundary r = true ->
  take_digits (ds ++ r) = (ds, r).
Proof.
  intros Hd Hb. induction ds as [|d ds IH]; simpl.
  - destruct r as [|b r]; [reflexivity|]. simpl in Hb.
    apply negb_true_iff in Hb. simpl. rewrite Hb. reflexivity.
  - simpl in Hd. apply andb_true_iff in Hd as [Hd1 Hd2].
    rewrite Hd1, (IH Hd2). reflexivity.
Qed.

Lemma take_digits_spec s : forall ds r, take_digits s = (ds, r) ->
  s = ds ++ r /\ forallb is_digit ds = true /\ digit_boundary r = true.
Proof.
  induction s as [|b s IH]; intros ds r H; simpl in H.
  - injection H as <- <-. auto.
  - destruct (is_digit b) eqn:Hb.
    + destruct (take_digits s) as [ds' r'] eqn:E. injection H as <- <-.
      destruct (IH _ _ eq_refl) as (-> & H2 & H3). simpl. rewrite Hb, H2. auto.
    + injection H as <- <-. simpl. rewrite Hb. auto.
Qed.

Lemma dec_octet n : 0 <= n < 256 -> dec_octet_ok n = true.
Proof.
  intros Hn.
  assert (Hall : forallb (fun k => dec_octet_ok (Z.of_nat k)) (seq 0 256) = true)
    by (vm_compute; reflexivity).
  rewrite forallb_forall in Hall.
  specialize (Hall (Z.to_nat n)). rewrite Z2Nat.id in Hall by lia.
  apply Hall. apply in_seq. lia.
Qed.

Lemma read_octet_dec n r : 0 <= n < 256 -> digit_boundary r = true ->
  std_read_octet (u_dec n ++ r) = Some (n, r).
Proof.
  intros Hn Hb. pose proof (dec_octet n Hn) as H. unfold dec_octet_ok in H.
  destruct (u_dec n) as [|d0 ds] eqn:E; [discriminate|].
  apply andb_true_iff in H as [H H4]. apply andb_true_iff in H as [H H3].
  apply andb_true_iff in H as [H1 H2].
  unfold std_read_octet. rewrite (take_digits_app _ _ H1 Hb).
  apply Nat.leb_le in H2. apply Z.eqb_eq in H3.
  destruct (Nat.ltb_spec 3 (List.length (d0 :: ds))); [lia|].
  destruct (Z.ltb_spec 255 (digits_value (d0 :: ds))); [lia|].
  apply negb_true_iff in H4. rewrite H4, H3. reflexivity.
Qed.

Lemma dec_octet_length n : 0 <= n < 256 -> (List.length (u_dec n) <= 3)%nat.
Proof.
  intros Hn. pose proof (dec_octet n Hn) as H. unfold dec_octet_ok in H.
  destruct (u_dec n) as [|d0 ds]; [discriminate|].
  apply andb_true_iff in H as [H _]. apply andb_true_iff in H as [H _].
  apply andb_true_iff in H as [_ H]. apply Nat.leb_le in H. exact H.
Qed.

Lemma digit_lists_in ds : forallb is_digit ds = true -> In ds (digit_lists (List.length ds)).
Proof.
  induction ds as [|d ds IH]; intros H; [left; reflexivity|].
  cbn [forallb] in H. apply andb_true_iff in H as [Hd Hds].
  change (In (d :: ds) (flat_map (fun d => map (cons d) (digit_lists (List.length ds)))
                          digits10)).
  apply in_flat_map. exists d. split.
  - unfold is_digit in Hd. apply andb_true_iff in Hd as [H1 H2].
    apply Z.leb_le in H1. apply Z.leb_le in H2.
    unfold digits10. apply in_map_iff. exists (Z.to_nat (d - 48)). split.
    + rewrite Z2Nat.id by lia. lia.
    + apply in_seq. lia.
  - apply in_map. apply IH. exact Hds.
Qed.

Lemma read_octet_inv s v r : std_read_octet s = Some (v, r) ->
  s = u_dec v ++ r /\ 0 <= v < 256 /\ digit_boundary r = true.
Proof.
  unfold std_read_octet. destruct (take_digits s) as [ds rest] eqn:Et.
  apply take_digits_spec in Et as (-> & Hd & Hb).
  destruct ds as [|d0 ds]; [discriminate|].
  destruct (Nat.ltb_spec 3 (List.length (d0 :: ds))) as [|Hl]; [discriminate|].
  destruct (Z.ltb_spec 255 (digits_value (d0 :: ds))) as [|Hv]; [discriminate|].
  destruct ((d0 =? 48) && (1 <? List.length (d0 :: ds))%nat) eqn:Hz; [discriminate|].
  intros H. injection H as <- <-.
  assert (Hall : forallb octet_text_ok (digit_lists 1 ++ digit_lists 2 ++ digit_lists 3) = true)
    by (vm_compute; reflexivity).
  rewrite forallb_forall in Hall.
  assert (Hin : In (d0 :: ds) (digit_lists 1 ++ digit_lists 2 ++ digit_lists 3)).
  { pose proof (digit_lists_in _ Hd) as Hi. rewrite !in_app_iff.
    simpl in Hl. destruct ds as [|x [|y [|z ds]]]; simpl in Hl |- *.
    - left. exact Hi.
    - right; left. exact Hi.
    - right; right. exact Hi.
    - lia. }
  specialize (Hall _ Hin). unfold octet_text_ok in Hall.
  destruct (Nat.ltb_spec 3 (List.length (d0 :: ds))); [lia|].
  destruct (Z.ltb_spec 255 (digits_value (d0 :: ds))); [lia|].
  rewrite Hz in Hall. apply andb_true_iff in Hall as [Hnn Heq]. apply Z.leb_le in Hnn.
  destruct (list_eq_dec Z.eq_dec (d0 :: ds) (u_dec (digits_value (d0 :: ds)))) as [E|];
    [|discriminate].
  split; [rewrite <- E; reflexivity|]. split; [lia|exact Hb].
Qed.

Lemma lor_disjoint_add x y : Z.land x y = 0 -> Z.lor x y = x + y.
Proof.
  intros H. rewrite <- (Z.lxor_lor x y H). rewrite (Z.add_nocarry_lxor x y H). reflexivity.
Qed.

Lemma land_shiftl_low x y n : 0 <= n -> 0 <= y < 2 ^ n -> Z.land (Z.shiftl x n) y = 0.
Proof.
  intros Hn Hy. apply Z.bits_inj'. intros i Hi. rewrite Z.land_spec, Z.bits_0.
  destruct (Z.ltb_spec i n).
  - rewrite Z.shiftl_spec_low by lia. reflexivity.
  - rewrite (testbit_high y n i) by lia. apply andb_false_r.
Qed.

Lemma ipv4_new_arith a b c d :
  0 <= a < 256 -> 0 <= b < 256 -> 0 <= c < 256 -> 0 <= d < 256 ->
  ipv4_new a b c d = a * 16777216 + b * 65536 + c * 256 + d.
Proof.
  intros Ha Hb Hc Hd.
  assert (H8 : 2 ^ 8 = 256) by reflexivity.
  assert (H16 : 2 ^ 16 = 65536) by reflexivity.
  assert (H24 : 2 ^ 24 = 16777216) by reflexivity.
  unfold ipv4_new.
  rewrite (lor_disjoint_add (Z.shiftl c 8) d) by (apply land_shiftl_low; lia).
  rewrite (Z.shiftl_mul_pow2 c 8) by lia.
  rewrite (lor_disjoint_add (Z.shiftl b 16)) by (apply land_shiftl_low; nia).
  rewrite (Z.shiftl_mul_pow2 b 16) by lia.
  rewrite (lor_disjoint_add (Z.shiftl a 24)) by (apply land_shiftl_low; nia).
  rewrite (Z.shiftl_mul_pow2 a 24) by lia.
  lia.
Qed.

Lemma octet_range ip i : 0 <= octet ip i < 256.
Proof.
  unfold octet, octets. replace 255 with (Z.ones 8) by reflexivity.
  assert (H8 : 2 ^ 8 = 256) by reflexivity.
  destruct i as [|[|[|[|i]]]]; cbn [nth];
    try (rewrite Z.land_ones by lia; rewrite <- H8; apply Z.mod_pos_bound; lia).
  destruct i; simpl; lia.
Qed.

Lemma octet3_of_range ip : octet ip 3 = ip mod 256.
Proof.
  unfold octet, octets; cbn [nth]. replace 255 with (Z.ones 8) by reflexivity.
  rewrite Z.land_ones by lia. reflexivity.
Qed.

Lemma octets_ipv4_new a b c d :
  0 <= a < 256 -> 0 <= b < 256 -> 0 <= c < 256 -> 0 <= d < 256 ->
  octet (ipv4_new a b c d) 0 = a /\ octet (ipv4_new a b c d) 1 = b /\
  octet (ipv4_new a b c d) 2 = c /\ octet (ipv4_new a b c d) 3 = d.
Proof.
  intros Ha Hb Hc Hd.
  destruct (octets_of_range (ipv4_new a b c d) (ipv4_new_range a b c d Ha Hb Hc Hd))
    as (H0 & H1 & H2).
  rewrite H0, H1, H2, octet3_of_range, (ipv4_new_arith a b c d Ha Hb Hc Hd).
  repeat split; Z.div_mod_to_equations; lia.
Qed.

Lemma ipv4_new_octets ip : 0 <= ip < 2 ^ 32 ->
  ipv4_new (octet ip 0) (octet ip 1) (octet ip 2) (octet ip 3) = ip.
Proof.
  intros Hip.
  rewrite ipv4_new_arith by apply octet_range.
  destruct (octets_of_range ip Hip) as (H0 & H1 & H2).
  rewrite H0, H1, H2, octet3_of_range.
  assert (H32 : 2 ^ 32 = 4294967296) by reflexivity.
  Z.div_mod_to_equations. lia.
Qed.

Lemma read_given_char_inv c s s' : read_given_char c s = Some s' -> s = c :: s'.
Proof.
  destruct s as [|b r]; simpl; [discriminate|].
  destruct (Z.eqb_spec b c); [|discriminate]. intros H. injection H as <-. subst. reflexivity.
Qed.

Lemma parse_dotted a b c d :
  0 <= a < 256 -> 0 <= b < 256 -> 0 <= c < 256 -> 0 <= d < 256 ->
  parse_ipv4 (u_dec a ++ 46 :: u_dec b ++ 46 :: u_dec c ++ 46 :: u_dec d) =
  Some (ipv4_new a b c d).
Proof.
  intros Ha Hb Hc Hd. unfold parse_ipv4.
  destruct (Nat.ltb_spec 15
    (List.length (u_dec a ++ 46 :: u_dec b ++ 46 :: u_dec c ++ 46 :: u_dec d))) as [Hl|_].
  { repeat (rewrite length_app in Hl; cbn [List.length] in Hl).
    pose proof (dec_octet_length a Ha). pose proof (dec_octet_length b Hb).
    pose proof (dec_octet_length c Hc). pose proof (dec_octet_length d Hd). lia. }
  rewrite (read_octet_dec a) by (auto; reflexivity). cbn -[u_dec std_read_octet ipv4_new].
  rewrite (read_octet_dec b) by (auto; reflexivity). cbn -[u_dec std_read_octet ipv4_new].
  rewrite (read_octet_dec c) by (auto; reflexivity). cbn -[u_dec std_read_octet ipv4_new].
  rewrite <- (app_nil_r (u_dec d)).
  rewrite (read_octet_dec d) by (auto; reflexivity). reflexivity.
Qed.

(* ------------------------------------------------------------------ *)
(** ** What the aggregator loop writes *)

Lemma dec_fuel_digits f : forall n acc, forallb is_digit acc = true ->
  forallb is_digit (dec_fuel f n acc) = true.
Proof.
  induction f as [|f IH]; intros n acc H; cbn [dec_fuel]; [exact H|].
  assert (Hd : is_digit (48 + n mod 10) = true).
  { unfold is_digit. pose proof (Z.mod_pos_bound n 10). apply andb_true_iff.
    split; apply Z.leb_le; lia. }
  destruct (n <? 10); [cbn [forallb]; rewrite Hd, H; reflexivity|].
  apply IH. cbn [forallb]. rewrite Hd, H. reflexivity.
Qed.

Lemma u_dec_digits n : forallb is_digit (u_dec n) = true.
Proof. apply dec_fuel_digits. reflexivity. Qed.

Lemma dec_fuel_suffix f : forall n acc, exists p, dec_fuel f n acc = p ++ acc.
Proof.
  induction f as [|f IH]; intros n acc; cbn [dec_fuel]; [exists []; reflexivity|].
  destruct (n <? 10); [exists [48 + n mod 10]; reflexivity|].
  destruct (IH (n / 10) ((48 + n mod 10) :: acc)) as [p Hp].
  exists (p ++ [48 + n mod 10]). rewrite Hp, <- app_assoc. reflexivity.
Qed.

Lemma u_dec_nonempty n : u_dec n <> [].
Proof.
  unfold u_dec. cbn [dec_fuel].
  destruct (n <? 10); [discriminate|].
  destruct (dec_fuel_suffix (Z.to_nat (Z.log2 n)) (n / 10) [48 + n mod 10]) as [p ->].
  destruct p; discriminate.
Qed.

Lemma digits_no_nl l : forallb is_digit l = true -> count_occ Z.eq_dec l 10 = O.
Proof.
  induction l as [|b l IH]; simpl; intros H; [reflexivity|].
  apply andb_true_iff in H as [Hb Hl].
  destruct (Z.eq_dec b 10) as [->|]; [discriminate|]. apply IH, Hl.
Qed.

Lemma ipv4_to_string_no_nl ip : count_occ Z.eq_dec (ipv4_to_string ip) 10 = O.
Proof.
  unfold ipv4_to_string. rewrite !count_occ_app.
  rewrite !(digits_no_nl (u_dec _)) by apply u_dec_digits. reflexivity.
Qed.

Lemma ipv4_to_string_nonneg ip : Forall (fun b => 0 <= b) (ipv4_to_string ip).
Proof.
  assert (Hd : forall l, forallb is_digit l = true -> Forall (fun b => 0 <= b) l).
  { intros l H. apply Forall_forall. intros x Hx. rewrite forallb_forall in H.
    specialize (H x Hx). unfold is_digit in H. apply andb_true_iff in H as [H _].
    apply Z.leb_le in H. lia. }
  unfold ipv4_to_string. rewrite !Forall_app.
  repeat split; try (apply Hd, u_dec_digits); repeat constructor; lia.
Qed.

Lemma json_escape_no_nl b : 0 <= b -> count_occ Z.eq_dec (json_escape_byte b) 10 = O.
Proof.
  intros Hb. unfold json_escape_byte.
  destruct (b =? 34); [reflexivity|]. destruct (b =? 92); [reflexivity|].
  destruct (b =? 8); [reflexivity|]. destruct (b =? 9); [reflexivity|].
  destruct (Z.eqb_spec b 10); [reflexivity|].
  destruct (b =? 12); [reflexivity|]. destruct (b =? 13); [reflexivity|].
  destruct (Z.ltb_spec b 32).
  - assert (H1 : hex_digit (b / 16) <> 10).
    { unfold hex_digit. pose proof (Z.div_pos b 16 Hb ltac:(lia)).
      destruct (b / 16 <? 10); lia. }
    assert (H2 : hex_digit (b mod 16) <> 10).
    { unfold hex_digit. pose proof (Z.mod_pos_bound b 16 ltac:(lia)).
      destruct (b mod 16 <? 10); lia. }
    simpl. destruct (Z.eq_dec (hex_digit (b / 16)) 10); [contradiction|].
    destruct (Z.eq_dec (hex_digit (b mod 16)) 10); [contradiction|]. reflexivity.
  - simpl. destruct (Z.eq_dec b 10); [contradiction|reflexivity].
Qed.

Lemma json_string_no_nl s : Forall (fun b => 0 <= b) s -> count_occ Z.eq_dec (json_string s) 10 = O.
Proof.
  intros Hs. unfold json_string. rewrite !count_occ_app.
  assert (H : count_occ Z.eq_dec (flat_map json_escape_byte s) 10 = O).
  { induction Hs as [|b s Hb Hs IH]; [reflexivity|].
    simpl flat_map. rewrite count_occ_app, json_escape_no_nl by exact Hb. exact IH. }
  rewrite H. reflexivity.
Qed.

Lemma scan_result_json_no_nl ts ip port lat : Forall (fun b => 0 <= b) ts ->
  count_occ Z.eq_dec (scan_result_json ts ip port lat) 10 = O.
Proof.
  intros Hts. unfold scan_result_json. rewrite !count_occ_app.
  rewrite (json_string_no_nl ts Hts), (json_string_no_nl _ (ipv4_to_string_nonneg ip)).
  rewrite !(digits_no_nl (u_dec _)) by apply u_dec_digits. vm_compute. reflexivity.
Qed.

Lemma text_log_line_no_nl ts ip port lat : ~ In 10 ts ->
  count_occ Z.eq_dec (text_log_line ts ip port lat) 10 = O.
Proof.
  intros Hts. unfold text_log_line. rewrite !count_occ_app.
  rewrite (proj1 (count_occ_not_In Z.eq_dec ts 10) Hts), ipv4_to_string_no_nl.
  rewrite !(digits_no_nl (u_dec _)) by apply u_dec_digits. vm_compute. reflexivity.
Qed.

Lemma sink_loop_sim json stamp stream : forall i, sink_loop true json stamp i stream = ([], []).
Proof.
  induction stream as [|[ip [[pf lat] e]] rest IH]; intros i; simpl; [reflexivity|].
  rewrite IH. destruct pf; reflexivity.
Qed.

Lemma sink_loop_clean json stamp stream : forall i,
  snd (sink_loop false json stamp i stream) =
  flat_map (fun ip => ipv4_to_string ip ++ [10]) (hit_ips stream).
Proof.
  induction stream as [|[ip [[pf lat] e]] rest IH]; intros i; [reflexivity|].
  specialize (IH (S i)). cbn [sink_loop].
  destruct (sink_loop false json stamp (S i) rest) as [l' c']. cbn [snd] in IH. subst c'.
  unfold hit_ips, sink_step. destruct pf as [port|]; cbn [snd filter is_hit map flat_map].
  - reflexivity.
  - reflexivity.
Qed.

Lemma sink_loop_log_count (json : bool) (stamp : nat -> list Z)
    (stream : list (Ipv4Addr * ProbeResult)) :
  (forall k ip port lat,
     count_occ Z.eq_dec
       (if json then scan_result_json (stamp k) ip port lat
        else text_log_line (stamp k) ip port lat) 10 = O) ->
  forall i, count_occ Z.eq_dec (fst (sink_loop false json stamp i stream)) 10 =
            List.length (filter is_hit stream).
Proof.
  intros Hline. induction stream as [|[ip [[pf lat] e]] rest IH]; intros i; [reflexivity|].
  specialize (IH (S i)). cbn [sink_loop].
  destruct (sink_loop false json stamp (S i) rest) as [l' c']. cbn [fst] in IH |- *.
  unfold sink_step. destruct pf as [port|]; cbn [fst filter is_hit List.length].
  - rewrite !count_occ_app, Hline, IH. reflexivity.
  - exact IH.
Qed.

Lemma parse_ipv4_of_display ip : 0 <= ip < 2 ^ 32 ->
  parse_ipv4 (ipv4_to_string ip) = Some ip.
Proof.
  intros Hip. unfold ipv4_to_string. cbn [app].
  rewrite parse_dotted by apply octet_range.
  rewrite ipv4_new_octets by exact Hip. reflexivity.
Qed.

Lemma utf8_valid_app n : forall a b, (List.length a <= n)%nat -> utf8_valid a = true ->
  utf8_valid (a ++ b) = utf8_valid b.
Proof.
  induction n as [|n IH]; intros a b Hl Hv.
  { destruct a; [reflexivity|simpl in Hl; lia]. }
  destruct a as [|x rest]; [reflexivity|].
  cbn [List.length] in Hl. cbn [app utf8_valid] in Hv |- *.
  destruct (x <? 128); [apply IH; [lia|exact Hv]|].
  destruct ((194 <=? x) && (x <=? 223)).
  { destruct rest as [|c1 r]; [discriminate|].
    apply andb_true_iff in Hv as [Hc Hr]. cbn [app]. rewrite Hc.
    apply IH; [simpl in Hl; lia|exact Hr]. }
  destruct ((224 <=? x) && (x <=? 239)).
  { destruct rest as [|c1 [|c2 r]]; try discriminate.
    apply andb_true_iff in Hv as [Hc Hr]. cbn [app]. rewrite Hc.
    apply IH; [simpl in Hl; lia|exact Hr]. }
  destruct ((240 <=? x) && (x <=? 244)); [|discriminate].
  destruct rest as [|c1 [|c2 [|c3 r]]]; try discriminate.
  apply andb_true_iff in Hv as [Hc Hr]. cbn [app]. rewrite Hc.
  apply IH; [simpl in Hl; lia|exact Hr].
Qed.

Lemma utf8_ascii l : Forall (fun b => b < 128) l -> utf8_valid l = true.
Proof.
  induction 1 as [|b l Hb _ IH]; [reflexivity|]. cbn [utf8_valid].
  destruct (Z.ltb_spec b 128); [exact IH|lia].
Qed.

Lemma split_inclusive_nil sep l : split_inclusive sep l = [] -> l = [].
Proof.
  destruct l as [|b l]; [reflexivity|]. cbn [split_inclusive].
  destruct (b =? sep); [discriminate|]. destruct (split_inclusive sep l); discriminate.
Qed.

Lemma split_inclusive_app sep a b :
  split_inclusive sep (a ++ sep :: b) = split_inclusive sep (a ++ [sep]) ++ split_inclusive sep b.
Proof.
  induction a as [|x a IH]; cbn [app split_inclusive].
  - rewrite Z.eqb_refl. reflexivity.
  - rewrite IH. destruct (x =? sep); [reflexivity|].
    destruct (split_inclusive sep (a ++ [sep])) as [|cur others] eqn:E.
    + apply split_inclusive_nil in E. destruct a; discriminate.
    + reflexivity.
Qed.

Lemma split_inclusive_last sep x : ~ In sep x ->
  split_inclusive sep (x ++ [sep]) = [x ++ [sep]].
Proof.
  induction x as [|b x IH]; intros Hx; cbn [app split_inclusive].
  - rewrite Z.eqb_refl. reflexivity.
  - destruct (Z.eqb_spec b sep) as [->|]; [exfalso; apply Hx; left; reflexivity|].
    rewrite IH by (intros H; apply Hx; right; exact H). reflexivity.
Qed.

Lemma strip_suffix_single c y d :
  strip_suffix [c] (y ++ [d]) = if d =? c then Some y else None.
Proof.
  unfold strip_suffix, lastn. rewrite length_app. cbn [List.length].
  replace (List.length y + 1 - 1)%nat with (List.length y) by lia.
  destruct (Nat.leb_spec 1 (List.length y + 1)); [|lia].
  rewrite skipn_app, skipn_all, Nat.sub_diag. cbn [skipn app].
  destruct (Z.eqb_spec d c) as [->|Hne].
  - destruct (list_eq_dec Z.eq_dec [c] [c]) as [_|]; [|contradiction].
    rewrite firstn_app, firstn_all, Nat.sub_diag. cbn [firstn]. rewrite app_nil_r. reflexivity.
  - destruct (list_eq_dec Z.eq_dec [d] [c]) as [E|]; [injection E; contradiction|reflexivity].
Qed.

Lemma digit_cases d : is_digit d = true ->
  d = 48 \/ d = 49 \/ d = 50 \/ d = 51 \/ d = 52 \/ d = 53 \/ d = 54 \/ d = 55 \/ d = 56 \/ d = 57.
Proof.
  unfold is_digit. intros H. apply andb_true_iff in H as [H1 H2].
  apply Z.leb_le in H1. apply Z.leb_le in H2. lia.
Qed.

Lemma is_ws_char_first_digit d r : is_digit d = true -> is_ws_char (d :: r) = false.
Proof.
  intros Hd. destruct r as [|a [|b [|c r]]];
    destruct (digit_cases d Hd) as [->|[->|[->|[->|[->|[->|[->|[->|[->| ->]]]]]]]]];
    reflexivity.
Qed.

Lemma is_ws_char_last_digit l d : is_digit d = true -> is_ws_char (l ++ [d]) = false.
Proof.
  intros Hd. destruct l as [|a [|b [|c l]]]; cbn [app];
    destruct (digit_cases d Hd) as [->|[->|[->|[->|[->|[->|[->|[->|[->| ->]]]]]]]]];
    try reflexivity; unfold is_ws_char; simpl; rewrite ?andb_false_r; try reflexivity;
    destruct l; reflexivity.
Qed.

Lemma lastn_app_single k y (d : Z) : (1 <= k)%nat ->
  exists p, lastn k (y ++ [d]) = p ++ [d].
Proof.
  intros Hk. unfold lastn. rewrite length_app. cbn [List.length].
  rewrite skipn_app. exists (skipn (List.length y + 1 - k) y).
  replace (List.length y + 1 - k - List.length y)%nat with O by lia. reflexivity.
Qed.

Lemma trim_digit_ends x d0 r y d1 :
  x = d0 :: r -> is_digit d0 = true -> x = y ++ [d1] -> is_digit d1 = true -> trim x = x.
Proof.
  intros Hx1 Hd0 Hx2 Hd1.
  assert (Hp : ws_prefix_len x = O).
  { unfold ws_prefix_len. rewrite Hx1.
    destruct r as [|a [|b r]]; cbn [firstn];
      rewrite !is_ws_char_first_digit by exact Hd0; reflexivity. }
  assert (Hs : ws_suffix_len x = O).
  { unfold ws_suffix_len. rewrite Hx2.
    destruct (lastn_app_single 1 y d1 ltac:(lia)) as [p1 ->].
    destruct (lastn_app_single 2 y d1 ltac:(lia)) as [p2 ->].
    destruct (lastn_app_single 3 y d1 ltac:(lia)) as [p3 ->].
    rewrite !is_ws_char_last_digit by exact Hd1. reflexivity. }
  assert (Ts : forall f, trim_start_fuel f x = x).
  { intros [|f]; [reflexivity|]. cbn [trim_start_fuel]. rewrite Hp. reflexivity. }
  assert (Te : forall f, trim_end_fuel f x = x).
  { intros [|f]; [reflexivity|]. cbn [trim_end_fuel]. rewrite Hs. reflexivity. }
  unfold trim. rewrite Ts. apply Te.
Qed.

Lemma ipv4_to_string_ends ip :
  (exists d0 r, ipv4_to_string ip = d0 :: r /\ is_digit d0 = true) /\
  (exists y d1, ipv4_to_string ip = y ++ [d1] /\ is_digit d1 = true).
Proof.
  split.
  - pose proof (u_dec_digits (octet ip 0)) as H. pose proof (u_dec_nonempty (octet ip 0)).
    unfold ipv4_to_string. destruct (u_dec (octet ip 0)) as [|d0 r]; [contradiction|].
    cbn [forallb] in H. apply andb_true_iff in H as [H _].
    eexists; eexists; split; [reflexivity|exact H].
  - pose proof (u_dec_digits (octet ip 3)) as H.
    destruct (exists_last (u_dec_nonempty (octet ip 3))) as (y & d1 & E).
    unfold ipv4_to_string. rewrite E in H |- *.
    rewrite forallb_app in H. apply andb_true_iff in H as [_ H]. cbn [forallb] in H.
    rewrite andb_true_r in H.
    exists (u_dec (octet ip 0) ++ [46] ++ u_dec (octet ip 1) ++ [46] ++
            u_dec (octet ip 2) ++ [46] ++ y), d1.
    split; [rewrite <- !app_assoc; reflexivity|exact H].
Qed.

Lemma trim_ipv4_to_string ip : trim (ipv4_to_string ip) = ipv4_to_string ip.
Proof.
  destruct (ipv4_to_string_ends ip) as ((d0 & r & E1 & H1) & (y & d1 & E2 & H2)).
  exact (trim_digit_ends _ _ _ _ _ E1 H1 E2 H2).
Qed.

Lemma lines_clean ips :
  lines (flat_map (fun ip => ipv4_to_string ip ++ [10]) ips) = map ipv4_to_string ips.
Proof.
  induction ips as [|ip ips IH]; [reflexivity|].
  cbn [flat_map map]. rewrite <- app_assoc. cbn [app].
  unfold lines in *. rewrite split_inclusive_app, map_app, IH.
  assert (Hn : ~ In 10 (ipv4_to_string ip))
    by (apply count_occ_not_In with (eq_dec := Z.eq_dec); apply ipv4_to_string_no_nl).
  rewrite (split_inclusive_last 10 _ Hn). cbn [map app].
  rewrite strip_suffix_single, Z.eqb_refl.
  destruct (ipv4_to_string_ends ip) as (_ & (y & d1 & E & Hd)).
  rewrite E, strip_suffix_single.
  destruct (Z.eqb_spec d1 13) as [->|]; [discriminate|reflexivity].
Qed.

Lemma filter_map_app {A B} (f : A -> option B) l1 l2 :
  filter_map f (l1 ++ l2) = filter_map f l1 ++ filter_map f l2.
Proof.
  induction l1 as [|x l1 IH]; [reflexivity|]. cbn [app filter_map].
  destruct (f x); [rewrite IH; reflexivity|exact IH].
Qed.

Lemma file_ips_some c :
  file_ips (Some c) =
  if utf8_valid c then filter_map (fun line => parse_ipv4 (trim line)) (lines c) else [].
Proof.
  unfold file_ips, read_to_string. destruct (utf8_valid c); [|reflexivity].
  rewrite fold_file_ips. reflexivity.
Qed.

Lemma clean_ascii ips : Forall (fun b => b < 128) (flat_map (fun ip => ipv4_to_string ip ++ [10]) ips).
Proof.
  induction ips as [|ip ips IH]; [constructor|]. cbn [flat_map].
  apply Forall_app. split; [|exact IH]. apply Forall_app. split; [|repeat constructor; lia].
  apply Forall_forall. intros x Hx.
  assert (H : forall l, forallb is_digit l = true -> In x l -> x < 128).
  { intros l Hl Hin. rewrite forallb_forall in Hl. specialize (Hl x Hin).
    unfold is_digit in Hl. apply andb_true_iff in Hl as [_ Hl]. apply Z.leb_le in Hl. lia. }
  unfold ipv4_to_string in Hx. rewrite !in_app_iff in Hx.
  destruct Hx as [Hx|[[<-|[]]|[Hx|[[<-|[]]|[Hx|[[<-|[]]|Hx]]]]]];
    first [lia | exact (H _ (u_dec_digits _) Hx)].
Qed.

Lemma parse_display_lines ips : Forall (fun ip => 0 <= ip < 2 ^ 32) ips ->
  filter_map (fun line => parse_ipv4 (trim line)) (map ipv4_to_string ips) = ips.
Proof.
  induction 1 as [|ip ips Hip _ IH]; [reflexivity|].
  cbn [map filter_map]. rewrite trim_ipv4_to_string, (parse_ipv4_of_display ip Hip).
  rewrite IH. reflexivity.
Qed.

(** The aggregator step: two results commute. *)
Lemma u128_add_swap x a b : u128_add (u128_add x a) b = u128_add (u128_add x b) a.
Proof. unfold u128_add. rewrite !Zplus_mod_idemp_l. f_equal. lia. Qed.

Lemma aggregate_step_comm st a b :
  aggregate_step (aggregate_step st a) b = aggregate_step (aggregate_step st b) a.
Proof.
  destruct a as [ipa [[[pa|] la] ea]], b as [ipb [[[pb|] lb] eb]];
    try destruct ea as [[| |]|]; try destruct eb as [[| |]|]; cbn;
    first [reflexivity | f_equal; apply u128_add_swap].
Qed.

Lemma aggregate_permutation st l l' : Permutation l l' -> aggregate st l = aggregate st l'.
Proof.
  intros H. revert st. unfold aggregate.
  induction H as [|x l l' _ IH|x y l|l l' l'' _ IH1 _ IH2]; intros st; cbn [fold_left].
  - reflexivity.
  - apply IH.
  - rewrite aggregate_step_comm. reflexivity.
  - rewrite IH1. apply IH2.
Qed.

Lemma aggregate_step_range st a : stats_in_range st -> stats_in_range (aggregate_step st a).
Proof.
  destruct st as [f t r u tp tl]. unfold stats_in_range. cbn. intros Hr.
  destruct a as [ip [[[p|] lat] [[| |]|]]]; cbn; unfold u32_inc, u128_add;
    repeat split;
    repeat match goal with
    | |- context [?x mod ?m] =>
        let H := fresh in
        assert (H := Z.mod_pos_bound x m ltac:(lia)); revert H;
        generalize (x mod m); intros
    end; lia.
Qed.

Lemma count_if_cons {A} (f : A -> bool) a l :
  count_if f (a :: l) = (if f a then 1 else 0) + count_if f l.
Proof. unfold count_if. cbn [filter]. destruct (f a); cbn [List.length]; lia. Qed.

Lemma aggregate_closed l : forall st, stats_in_range st ->
  aggregate st l =
  mkStats ((found st + count_if is_hit l) mod 2 ^ 32)
          ((timeouts st + count_if (is_miss_with Timeout) l) mod 2 ^ 32)
          ((refused st + count_if (is_miss_with ConnectionRefused) l) mod 2 ^ 32)
          ((unreachable st + count_if (is_miss_with Unreachable) l) mod 2 ^ 32)
          ((total_processed st + Z.of_nat (List.length l)) mod 2 ^ 32)
          ((total_latency st + latency_sum l) mod 2 ^ 128).
Proof.
  induction l as [|a l IH]; intros st Hr.
  - destruct st as [f t r u tp tl]. unfold stats_in_range in Hr. cbn in Hr.
    unfold count_if, latency_sum. cbn -[Z.pow].
    rewrite !Z.add_0_r, !Z.mod_small by lia. reflexivity.
  - change (aggregate st (a :: l)) with (aggregate (aggregate_step st a) l).
    rewrite IH by (apply aggregate_step_range; exact Hr).
    rewrite !count_if_cons.
    change (latency_sum (a :: l)) with (hit_latency a + latency_sum l).
    change (List.length (a :: l)) with (S (List.length l)).
    destruct st as [f t r u tp tl].
    destruct a as [ip [[[p|] lat] [[| |]|]]];
      cbn [aggregate_step found timeouts refused unreachable total_processed total_latency
           is_hit is_miss_with ScanError_eqb hit_latency];
      unfold u32_inc, u128_add; f_equal; rewrite ?Zplus_mod_idemp_l; f_equal; lia.
Qed.

(** The number of addresses of a block. *)
Lemma addr_range_length s e : List.length (addr_range s e) = Z.to_nat (e - s + 1).
Proof. unfold addr_range. rewrite length_map, length_seq. reflexivity. Qed.

Lemma hosts_count n :
  0 <= net_addr n < 2 ^ 32 -> 0 <= prefix_len n <= 32 ->
  Z.of_nat (List.length (hosts n)) =
  if prefix_len n <? 31 then 2 ^ (32 - prefix_len n) - 2 else 2 ^ (32 - prefix_len n).
Proof.
  intros Ha Hp.
  pose proof (network_arith n Ha Hp) as Hnet.
  pose proof (broadcast_arith n Ha Hp) as Hbc.
  pose proof (broadcast_bound n Ha Hp) as Hbb.
  set (k := 32 - prefix_len n) in *.
  assert (Hk : 1 <= 2 ^ k) by (apply (Z.pow_le_mono_r 2 0 k); lia).
  assert (H0 : 0 <= network n)
    by (rewrite Hnet; apply Z.mul_nonneg_nonneg; [apply Z.div_pos|]; lia).
  unfold hosts. destruct (Z.ltb_spec (prefix_len n) 31) as [Hlt|Hge].
  - assert (Hk4 : 4 <= 2 ^ k) by (apply (Z.pow_le_mono_r 2 2 k); lia).
    rewrite addr_range_length. unfold u32_max.
    rewrite Z.min_l by lia. rewrite Z.max_l by lia. rewrite Z2Nat.id; lia.
  - rewrite addr_range_length, Z2Nat.id; lia.
Qed.

Lemma cidr_entry_count piece :
  Z.of_nat (List.length (cidr_entry_hosts piece)) =
  match parse_ipv4net (trim piece) with
  | Some net => if prefix_len net <? 31 then 2 ^ (32 - prefix_len net) - 2
                else 2 ^ (32 - prefix_len net)
  | None => 0
  end.
Proof.
  unfold cidr_entry_hosts. destruct (parse_ipv4net (trim piece)) as [net|] eqn:E; [|reflexivity].
  destruct (parse_ipv4net_bounds _ _ E). apply hosts_count; assumption.
Qed.

(** [--ports] text written from a port list is read back by [Scanner::new]. *)
Lemma forall_range_spec f n : forall start, forall_range f start n = true ->
  forall j, start <= j < start + Z.of_nat n -> f j = true.
Proof.
  induction n as [|n IH]; intros start H j Hj; [lia|].
  cbn [forall_range] in H. apply andb_true_iff in H as [H1 H2].
  destruct (Z.eq_dec j start) as [->|Hne]; [exact H1|].
  apply (IH (start + 1) H2). lia.
Qed.

Lemma u16_dec_check :
  forall_range (fun p => match parse_u16 (u_dec p) with
                         | Some v => v =? p
                         | None => false
                         end) 0 (Z.to_nat 65536) = true.
Proof. vm_compute. reflexivity. Qed.

Lemma parse_u16_dec p : 0 <= p <= 65535 -> parse_u16 (u_dec p) = Some p.
Proof.
  intros Hp. pose proof (forall_range_spec _ _ _ u16_dec_check p) as H.
  rewrite Z2Nat.id in H by lia. specialize (H ltac:(lia)).
  cbv beta in H.
  destruct (parse_u16 (u_dec p)) as [v|]; [|discriminate].
  apply Z.eqb_eq in H. rewrite H. reflexivity.
Qed.

Lemma trim_u_dec p : trim (u_dec p) = u_dec p.
Proof.
  pose proof (u_dec_digits p) as Hd.
  destruct (u_dec p) as [|d0 r] eqn:E; [reflexivity|].
  destruct (exists_last (l := d0 :: r) ltac:(discriminate)) as [y [d1 Hy]].
  apply (trim_digit_ends (d0 :: r) d0 r y d1 eq_refl).
  - cbn [forallb] in Hd. apply andb_true_iff in Hd. apply Hd.
  - exact Hy.
  - rewrite Hy, forallb_app in Hd. apply andb_true_iff in Hd as [_ Hd].
    cbn [forallb] in Hd. rewrite andb_true_r in Hd. exact Hd.
Qed.

Lemma split_on_not_nil sep s : split_on sep s <> [].
Proof.
  destruct s as [|b s]; cbn [split_on]; [discriminate|].
  destruct (split_on sep s) as [|cur others]; [discriminate|].
  destruct (b =? sep); discriminate.
Qed.

Lemma split_on_piece sep p t : ~ In sep p ->
  split_on sep (p ++ sep :: t) = p :: split_on sep t.
Proof.
  intros Hp. induction p as [|b p IH]; cbn [app split_on].
  - destruct (split_on sep t) as [|cur others] eqn:E.
    + exfalso. exact (split_on_not_nil sep t E).
    + rewrite Z.eqb_refl. reflexivity.
  - rewrite IH by (intros Hi; apply Hp; right; exact Hi).
    replace (b =? sep) with false; [reflexivity|].
    symmetry. apply Z.eqb_neq. intros ->. apply Hp. left. reflexivity.
Qed.

Lemma split_on_single sep p : ~ In sep p -> split_on sep p = [p].
Proof.
  intros Hp. induction p as [|b p IH]; [reflexivity|]. cbn [split_on].
  rewrite IH by (intros Hi; apply Hp; right; exact Hi).
  replace (b =? sep) with false; [reflexivity|].
  symmetry. apply Z.eqb_neq. intros ->. apply Hp. left. reflexivity.
Qed.

Lemma split_join_comma pieces : pieces <> [] -> Forall (fun p => ~ In 44 p) pieces ->
  split_on 44 (join_comma pieces) = pieces.
Proof.
  induction pieces as [|p rest IH]; intros Hne Hf; [congruence|].
  inversion Hf as [|? ? Hp Hrest]; subst.
  destruct rest as [|q rest'].
  - apply split_on_single. exact Hp.
  - change (join_comma (p :: q :: rest')) with (p ++ [44] ++ join_comma (q :: rest')).
    cbn [app]. rewrite split_on_piece by exact Hp.
    rewrite IH by (discriminate || exact Hrest). reflexivity.
Qed.

Lemma u_dec_no_comma p : ~ In 44 (u_dec p).
Proof.
  intros Hi. pose proof (u_dec_digits p) as Hd. rewrite forallb_forall in Hd.
  specialize (Hd 44 Hi). discriminate.
Qed.

Lemma scanner_ports_of_text ps : Forall (fun p => 0 <= p <= 65535) ps ->
  filter_map (fun s => parse_u16 (trim s)) (split_on 44 (join_comma (map u_dec ps))) = ps.
Proof.
  intros Hps. destruct ps as [|p0 ps0]; [reflexivity|].
  rewrite split_join_comma.
  - clear -Hps. induction Hps as [|p ps Hp _ IH]; [reflexivity|].
    cbn [map filter_map]. rewrite trim_u_dec, parse_u16_dec by exact Hp.
    rewrite IH. reflexivity.
  - discriminate.
  - apply Forall_forall. intros x Hx. apply in_map_iff in Hx as [p [<- _]].
    apply u_dec_no_comma.
Qed.

(** A stream of results without a port or a reason. *)
Lemma count_if_undecided f (l : list (Ipv4Addr * ProbeResult)) :
  f (0, (None, None, None)) = false ->
  (forall ip, f (ip, (None, None, None)) = f (0, (None, None, None))) ->
  Forall (fun item => snd item = (None, None, None)) l -> count_if f l = 0.
Proof.
  intros Hf Hip Hl. induction Hl as [|[ip r] l Hx _ IH]; [reflexivity|].
  cbn [snd] in Hx. subst r. rewrite count_if_cons, Hip, Hf. lia.
Qed.

Lemma latency_sum_undecided (l : list (Ipv4Addr * ProbeResult)) :
  Forall (fun item => snd item = (None, None, None)) l -> latency_sum l = 0.
Proof.
  intros Hl. induction Hl as [|[ip r] l Hx _ IH]; [reflexivity|].
  cbn [snd] in Hx. subst r. change (latency_sum (_ :: l)) with (0 + latency_sum l). lia.
Qed.

(* ================================================================== *)
(** * Claims *)

(** C5: [is_public_ipv4] is a total boolean function on the 2^32 addresses
    that is false exactly on the excluded blocks of the spec and true
    elsewhere, in particular on 8.8.8.8 and 1.1.1.1. *)
Theorem is_public_ipv4_spec (ip : Ipv4Addr) : 0 <= ip < 2 ^ 32 ->
  filter.is_public_ipv4 ip = negb (spec_excluded ip)
  /\ filter.is_public_ipv4 (ipv4_new 8 8 8 8) = true
  /\ filter.is_public_ipv4 (ipv4_new 1 1 1 1) = true.
Proof.
  intros Hip. split; [|split; reflexivity].
  rewrite spec_excluded_octets by exact Hip.
  unfold filter.is_public_ipv4; cbv zeta.
  repeat match goal with
  | |- context [if ?c then _ else _] => destruct c
  end; reflexivity.
Qed.

Lemma is_public_ipv4_spec_witness :
  0 <= ipv4_new 100 100 0 1 < 2 ^ 32 /\
  filter.is_public_ipv4 (ipv4_new 100 100 0 1) = negb (spec_excluded (ipv4_new 100 100 0 1)).
Proof.
  split; [range_by_eval|].
  apply (is_public_ipv4_spec (ipv4_new 100 100 0 1)).
  range_by_eval.
Defined.

(** C1 (corrected): for every drained stream of results of [check_ip] under a
    scanner that simulates or has a non-empty port list, with fewer than 2^32
    results (the counters are u32), [total_processed] is the sum of the four
    outcome counters and [found <= total_processed]. With an empty parsed port
    list in non-simulate mode, every probe returns neither a port nor a reason,
    and the drained stream counts every result in [total_processed] only. *)
Theorem aggregate_sum_invariant (sc : Scanner)
    (stream : list (Ipv4Addr * ProbeResult)) :
  Forall (fun item => exists env tr, check_ip sc (fst item) env = Some (snd item, tr)) stream ->
  Z.of_nat (List.length stream) < 2 ^ 32 ->
  let st := aggregate stats_default stream in
  ((simulate sc = true \/ ports sc <> []) ->
   total_processed st = found st + timeouts st + refused st + unreachable st /\
   found st <= total_processed st) /\
  (simulate sc = false -> ports sc = [] ->
   (forall ip env, check_ip sc ip env = Some ((None, None, None), [])) /\
   total_processed st = Z.of_nat (List.length stream) /\
   found st = 0 /\ timeouts st = 0 /\ refused st = 0 /\ unreachable st = 0 /\
   total_latency st = 0).
Proof.
  intros Hall Hlen st. split.
  - intros Hcfg.
    assert (Hinv : stats_inv st).
    { apply aggregate_inv.
      - unfold stats_inv, stats_sum; simpl; lia.
      - simpl. exact Hlen.
      - eapply Forall_impl; [|exact Hall].
        intros [ip r] (env & tr & Hrun). exact (check_ip_decided sc ip env r tr Hcfg Hrun). }
    destruct Hinv as (H1 & H2 & H3 & H4 & H5). unfold stats_sum in H5. lia.
  - intros Hs Hp.
    assert (Hnone : forall ip env, check_ip sc ip env = Some ((None, None, None), [])).
    { intros ip env. unfold check_ip. rewrite Hs, Hp. reflexivity. }
    split; [exact Hnone|].
    assert (Hundec : Forall (fun item => snd item = (None, None, None)) stream).
    { eapply Forall_impl; [|exact Hall].
      intros [ip r] (env & tr & Hrun). rewrite Hnone in Hrun.
      injection Hrun as <- _. reflexivity. }
    unfold st. rewrite aggregate_closed by (unfold stats_in_range; cbn; lia).
    cbn [found timeouts refused unreachable total_processed total_latency stats_default].
    rewrite (count_if_undecided is_hit), (count_if_undecided (is_miss_with Timeout)),
      (count_if_undecided (is_miss_with ConnectionRefused)),
      (count_if_undecided (is_miss_with Unreachable)), (latency_sum_undecided stream)
      by first [reflexivity | exact Hundec | intros; reflexivity].
    rewrite Z.mod_small by lia. repeat split.
Qed.

Lemma aggregate_sum_invariant_witness :
  let stream := [(ipv4_new 8 8 8 8,
                  fst (port_loop net_ssh_only (ipv4_new 8 8 8 8) 375 0 [80; 443; 22; 8080] 0 None));
                 (ipv4_new 1 1 1 1,
                  fst (port_loop net_refused_then_reset (ipv4_new 1 1 1 1) 375 0
                         [80; 443; 22; 8080] 0 None))] in
  let stream0 := [(ipv4_new 8 8 8 8, (None, None, None)); (ipv4_new 1 1 1 1, (None, None, None))] in
  total_processed (aggregate stats_default stream) =
    found (aggregate stats_default stream) + timeouts (aggregate stats_default stream)
    + refused (aggregate stats_default stream) + unreachable (aggregate stats_default stream) /\
  total_processed (aggregate stats_default stream0) = 2 /\
  found (aggregate stats_default stream0) = 0.
Proof.
  intros stream stream0. split; [|split].
  - refine (proj1 (proj1 (aggregate_sum_invariant sc_default_ports stream _ _) _)).
    + constructor; [|constructor; [|constructor]].
      * exists (env_of net_ssh_only). eexists. vm_compute. reflexivity.
      * exists (env_of net_refused_then_reset). eexists. vm_compute. reflexivity.
    + vm_compute. reflexivity.
    + right. discriminate.
  - refine (proj1 (proj2 (proj2 (aggregate_sum_invariant sc_no_ports stream0 _ _) _ _))).
    + constructor; [|constructor; [|constructor]];
        exists (env_of net_ssh_only); eexists; vm_compute; reflexivity.
    + vm_compute. reflexivity.
    + reflexivity.
    + reflexivity.
  - refine (proj1 (proj2 (proj2 (proj2 (aggregate_sum_invariant sc_no_ports stream0 _ _) _ _)))).
    + constructor; [|constructor; [|constructor]];
        exists (env_of net_ssh_only); eexists; vm_compute; reflexivity.
    + vm_compute. reflexivity.
    + reflexivity.
    + reflexivity.
Defined.

(** C1, counterexample: with an empty parsed port list a real probe returns
    neither a port nor a reason; the drained stream then counts it in
    [total_processed] only. *)
Lemma aggregate_sum_invariant_counterexample :
  check_ip sc_no_ports (ipv4_new 8 8 8 8) (env_of net_ssh_only) = Some ((None, None, None), [])
  /\ let st := aggregate stats_default [(ipv4_new 8 8 8 8, (None, None, None))] in
     total_processed st = 1 /\ found st + timeouts st + refused st + unreachable st = 0.
Proof. split; [reflexivity|]. cbv zeta. split; reflexivity. Qed.

(** C2 (corrected): when no port connects, the reason of the [Miss] is the
    classification of the LAST attempt that failed with an [io::Error]
    (refused gives [ConnectionRefused], any other kind [Unreachable]); only
    if no attempt failed that way is it [Timeout], when some attempt ran out
    of its slice, and none when no port was tried. *)
Theorem check_ip_miss_reason (sc : Scanner) (ip : Ipv4Addr) (env : ProbeEnv)
    (r : option ScanError) (tr : list Attempt) :
  simulate sc = false ->
  check_ip sc ip env = Some ((None, None, r), tr) ->
  r = match last_explicit_error tr with
      | Some e => Some e
      | None => if some_timeout tr then Some Timeout else None
      end.
Proof.
  intros Hsim Hrun. unfold check_ip in Hrun. rewrite Hsim in Hrun.
  injection Hrun as Hrun.
  exact (port_loop_miss_reason _ _ _ _ _ _ _ _ _ Hrun).
Qed.

Lemma check_ip_miss_reason_witness :
  simulate sc_two_ports = false /\
  exists tr, check_ip sc_two_ports (ipv4_new 8 8 8 8) (env_of net_refused_then_reset)
             = Some ((None, None, Some Unreachable), tr) /\
           Some Unreachable = match last_explicit_error tr with
                              | Some e => Some e
                              | None => if some_timeout tr then Some Timeout else None
                              end.
Proof.
  split; [reflexivity|].
  exists [mkAttempt 80 750 (TErr KConnectionRefused) 3;
          mkAttempt 443 750 (TErr KConnectionReset) 4].
  split; [vm_compute; reflexivity|].
  apply (check_ip_miss_reason sc_two_ports (ipv4_new 8 8 8 8) (env_of net_refused_then_reset));
    [reflexivity|vm_compute; reflexivity].
Defined.

(** C2, counterexample: the first port is refused, the second reset by the
    peer; the first classification observed is [ConnectionRefused], yet the
    later [Unreachable] replaces it. *)
Lemma check_ip_miss_reason_counterexample :
  exists tr,
    check_ip sc_two_ports (ipv4_new 8 8 8 8) (env_of net_refused_then_reset)
      = Some ((None, None, Some Unreachable), tr) /\
    map att_outcome tr = [TErr KConnectionRefused; TErr KConnectionReset].
Proof. eexists. split; vm_compute; reflexivity. Qed.

(** C3: a real probe over ports each of which runs out of its slice or is
    refused, at least one being refused, returns [Miss{ConnectionRefused}]. *)
Theorem check_ip_all_refused (sc : Scanner) (ip : Ipv4Addr) (env : ProbeEnv) :
  simulate sc = false ->
  all_refused_or_elapsed (net env) ip (port_timeout_of sc) 0 (ports sc) ->
  (exists i p, nth_error (ports sc) i = Some p /\
     fst (tokio_timeout (port_timeout_of sc) (net env ip i p)) = TErr KConnectionRefused) ->
  exists tr, check_ip sc ip env = Some ((None, None, Some ConnectionRefused), tr).
Proof.
  intros Hsim Hall Hsome. unfold check_ip. rewrite Hsim.
  pose proof (port_loop_refused (net env) ip (port_timeout_of sc) (ports sc) 0 0 None
                Hall ltac:(discriminate) (or_intror Hsome)) as H.
  destruct (port_loop (net env) ip (port_timeout_of sc) 0 (ports sc) 0 None) as [res tr].
  simpl in H. subst res. exists tr. reflexivity.
Qed.

Lemma check_ip_all_refused_witness :
  exists tr, check_ip sc_two_ports (ipv4_new 8 8 8 8) (env_of net_silent_then_refused)
             = Some ((None, None, Some ConnectionRefused), tr).
Proof.
  apply check_ip_all_refused; [reflexivity| |].
  - intros [|[|i]] p Hp; [left|right|destruct i; discriminate Hp];
      simpl in Hp; injection Hp as <-; vm_compute; reflexivity.
  - exists 1%nat, 443. split; [reflexivity|vm_compute; reflexivity].
Defined.

(** C4: a real probe tries the configured ports in order, each with the
    slice [timeout_ms / max(1, n)]; a connect that succeeds is the last
    attempt; a [Hit] carries the port of that attempt and the time elapsed
    since the start of the whole probe (the sum of all attempts' times); a
    [Miss] comes after every port was tried. *)
Theorem check_ip_port_order (sc : Scanner) (ip : Ipv4Addr) (env : ProbeEnv) :
  simulate sc = false ->
  exists res tr, check_ip sc ip env = Some (res, tr) /\
  (forall i a, nth_error tr i = Some a ->
     exists p, nth_error (ports sc) i = Some p /\ att_port a = p /\
       att_timeout a = timeout_ms sc / Z.max 1 (Z.of_nat (List.length (ports sc))) /\
       (att_outcome a, att_dur a) = tokio_timeout (att_timeout a) (net env ip i p)) /\
  (forall i a, nth_error tr i = Some a -> att_outcome a = TOk -> S i = List.length tr) /\
  match res with
  | (Some p, Some lat, None) =>
      exists pre a, tr = pre ++ [a] /\ att_port a = p /\ att_outcome a = TOk /\
        lat = trace_time tr
  | (None, None, _) =>
      List.length tr = List.length (ports sc) /\ (forall a, In a tr -> att_outcome a <> TOk)
  | _ => False
  end.
Proof.
  intros Hsim. unfold check_ip. rewrite Hsim.
  destruct (port_loop (net env) ip (port_timeout_of sc) 0 (ports sc) 0 None)
    as [res tr] eqn:Hrun.
  exists res, tr. split; [reflexivity|].
  destruct (port_loop_shape _ _ _ _ _ _ _ _ _ Hrun) as (Hsh & Hlast & Hres).
  split; [|split; [exact Hlast|]].
  - intros i a Hi. destruct (Hsh i a Hi) as (p & Hp & Hport & Ht & Ho).
    exists p. rewrite Ht. repeat split; auto.
  - destruct res as [[[p|] [lat|]] [e|]]; exact Hres.
Qed.

Lemma check_ip_port_order_witness :
  simulate sc_default_ports = false /\
  check_ip sc_default_ports (ipv4_new 8 8 8 8) (env_of net_ssh_only)
    = Some ((Some 22, Some 790, None),
            [mkAttempt 80 375 TElapsed 375; mkAttempt 443 375 TElapsed 375;
             mkAttempt 22 375 TOk 40]) /\
  exists res tr, check_ip sc_default_ports (ipv4_new 8 8 8 8) (env_of net_ssh_only)
                 = Some (res, tr).
Proof.
  split; [reflexivity|]. split; [vm_compute; reflexivity|].
  destruct (check_ip_port_order sc_default_ports (ipv4_new 8 8 8 8) (env_of net_ssh_only)
              eq_refl) as (res & tr & Hrun & _).
  exists res, tr. exact Hrun.
Defined.

(** C10: in simulate mode a non-empty port list makes [check_ip] total, with
    a [Hit] on the first port or [Miss{Timeout}]; with an empty port list a
    draw of [gen_bool] that says hit indexes [ports[0]] out of bounds. *)
Theorem check_ip_simulate_safe (sc : Scanner) (ip : Ipv4Addr) :
  simulate sc = true ->
  (ports sc <> [] -> forall env, exists r,
     check_ip sc ip env = Some (r, []) /\
     ((exists p0, hd_error (ports sc) = Some p0 /\ r = (Some p0, Some (sim_latency env), None))
      \/ r = (None, None, Some Timeout))) /\
  (ports sc = [] -> exists env, check_ip sc ip env = None).
Proof.
  intros Hsim. unfold check_ip. rewrite Hsim. split.
  - intros Hne env. destruct (sim_hit env).
    + destruct (ports sc) as [|p0 rest]; [congruence|].
      eexists. split; [reflexivity|]. left. exists p0. split; reflexivity.
    + eexists. split; [reflexivity|]. right. reflexivity.
  - intros Hnil. exists (mkProbeEnv net_ssh_only 50 true 20). simpl. rewrite Hnil. reflexivity.
Qed.

Lemma check_ip_simulate_safe_witness :
  exists r, check_ip (mkScanner [80] 1500 true) (ipv4_new 8 8 8 8) (mkProbeEnv net_ssh_only 50 true 20)
            = Some (r, []).
Proof.
  destruct (check_ip_simulate_safe (mkScanner [80] 1500 true) (ipv4_new 8 8 8 8) eq_refl)
    as [Hne _].
  destruct (Hne ltac:(discriminate) (mkProbeEnv net_ssh_only 50 true 20)) as (r & Hr & _).
  exists r. exact Hr.
Defined.

Example split_ports : split_on 44 (bytes_of "80, 443,,x") =
  [bytes_of "80"; bytes_of " 443"; []; bytes_of "x"].
Proof. reflexivity. Qed.
Example trim_nbsp : trim ([194; 160; 32] ++ bytes_of "22" ++ [9; 227; 128; 128]) = bytes_of "22".
Proof. reflexivity. Qed.
Example lines_crlf : lines [97; 13; 10; 98; 13; 10; 13] = [[97]; [98]; [13]].
Proof. reflexivity. Qed.
Example parse_u16_ex : map parse_u16 [bytes_of "+80"; bytes_of "65536"; bytes_of "+"; bytes_of "-1"] =
  [Some 80; None; None; None].
Proof. reflexivity. Qed.
Example scanner_new_default : ports (scanner_new Cli.default_args) = [80; 443; 22; 8080].
Proof. reflexivity. Qed.

(** C9 (corrected): a sink that cannot be opened makes [main] return that
    error before any probe; a rate limit of 0 makes [main] panic (the
    [unwrap] of [NonZeroU32::new]) once both sinks are open and the source is
    drained, also before any probe. The events show which sinks were opened
    and that the source was drained before the run stopped. *)
Theorem main_fatal_before_probe (args : Cli.Args) (can_open : list Z -> bool)
    (drained : list Ipv4Addr) (probe_env : Ipv4Addr -> ProbeEnv)
    (completion : list (Ipv4Addr * ProbeResult) -> list (Ipv4Addr * ProbeResult)) :
  Cli.rate args = 0 \/ can_open (Cli.output args) = false \/ can_open found_ips_txt = false ->
  let run := main_run args can_open drained probe_env completion in
  (forall ip, ~ In (EProbe ip) (snd run)) /\
  (can_open (Cli.output args) = false \/ can_open found_ips_txt = false ->
     exists path, fst run = ExitErr path) /\
  (can_open (Cli.output args) = false -> run = (ExitErr (Cli.output args), [])) /\
  (can_open (Cli.output args) = true -> can_open found_ips_txt = false ->
     run = (ExitErr found_ips_txt, [EOpen (Cli.output args)])) /\
  (can_open (Cli.output args) = true -> can_open found_ips_txt = true ->
     fst run = ExitPanic /\
     snd run = [EOpen (Cli.output args); EOpen found_ips_txt;
                EMaterialize (List.length drained)]).
Proof.
  intros Hfatal run. unfold run, main_run.
  destruct (can_open (Cli.output args)) eqn:Ho; simpl negb; cbv iota.
  - destruct (can_open found_ips_txt) eqn:Hf; simpl negb; cbv iota.
    + destruct Hfatal as [Hr|[Hc|Hc]]; [|discriminate|discriminate].
      rewrite Hr. simpl. split; [|split; [|split; [|split]]].
      * intros ip [H|[H|[H|[]]]]; discriminate H.
      * intros [H|H]; discriminate H.
      * intros H; discriminate H.
      * intros _ H; discriminate H.
      * intros _ _. split; reflexivity.
    + split; [|split; [|split; [|split]]].
      * intros ip [H|[]]; discriminate H.
      * intros _. eexists. reflexivity.
      * intros H; discriminate H.
      * intros _ _. reflexivity.
      * intros _ H; discriminate H.
  - split; [|split; [|split; [|split]]].
    + intros ip [].
    + intros _. eexists. reflexivity.
    + intros _. reflexivity.
    + intros H; discriminate H.
    + intros H; discriminate H.
Qed.

Lemma main_fatal_before_probe_witness :
  open_none (Cli.output Cli.default_args) = false /\
  main_run Cli.default_args open_none [ipv4_new 8 8 8 8]
    (fun _ => env_of net_ssh_only) (fun l => l) = (ExitErr (Cli.output Cli.default_args), []) /\
  Cli.rate args_rate0 = 0 /\
  snd (main_run args_rate0 open_all [ipv4_new 8 8 8 8] (fun _ => env_of net_ssh_only) (fun l => l))
  = [EOpen (Cli.output args_rate0); EOpen found_ips_txt; EMaterialize 1].
Proof.
  split; [reflexivity|]. split.
  - destruct (main_fatal_before_probe Cli.default_args open_none [ipv4_new 8 8 8 8]
                (fun _ => env_of net_ssh_only) (fun l => l) (or_intror (or_introl eq_refl)))
      as (_ & _ & Herr & _).
    exact (Herr eq_refl).
  - split; [reflexivity|].
    destruct (main_fatal_before_probe args_rate0 open_all [ipv4_new 8 8 8 8]
                (fun _ => env_of net_ssh_only) (fun l => l) (or_introl eq_refl))
      as (_ & _ & _ & _ & Hpanic).
    exact (proj2 (Hpanic eq_refl eq_refl)).
Defined.

(** C9, counterexample: with [--rate 0] and both sinks opened, [main] does
    not return an error: it panics. *)
Lemma main_fatal_before_probe_counterexample :
  main_run args_rate0 open_all [ipv4_new 8 8 8 8] (fun _ => env_of net_ssh_only) (fun l => l)
  = (ExitPanic, [EOpen (bytes_of "pulse_results.log"); EOpen found_ips_txt; EMaterialize 1]).
Proof. reflexivity. Qed.

(** C6: the calls of [next_ip] on [RandomSource { count: N, current: 0 }]
    that return give [Some] public address on the first [N] calls and [None]
    on every later one, and [total_count()] stays [N]. (The rejection loop
    itself is unbounded; the relation only relates calls that return.) *)
Theorem random_source_yields (N : Z) (rng : Rng) (pos : nat)
    (outs : list (option Ipv4Addr)) (s' : RandomSource) (pos' : nat) :
  random_calls rng (mkRandomSource N 0) pos outs s' pos' ->
  random_total_count s' = N /\
  forall i o, nth_error outs i = Some o ->
    (Z.of_nat i < N -> exists ip, o = Some ip /\ filter.is_public_ipv4 ip = true) /\
    (N <= Z.of_nat i -> o = None).
Proof.
  intros Hcalls. destruct (random_calls_spec _ _ _ _ _ _ Hcalls) as (Hcnt & Hout).
  split; [exact Hcnt|]. intros i o Hi. simpl in Hout. exact (Hout i o Hi).
Qed.

Lemma random_source_yields_witness :
  random_calls rng_eights (mkRandomSource 2 0) 0
    [Some (ipv4_new 8 8 8 8); Some (ipv4_new 8 8 8 8); None] (mkRandomSource 2 2) 8 /\
  random_total_count (mkRandomSource 2 2) = 2.
Proof.
  assert (Hgen : forall pos, gen_public rng_eights pos (ipv4_new 8 8 8 8) (pos + 4)).
  { intros pos. exact (gen_accept rng_eights pos eq_refl). }
  assert (Hrun : random_calls rng_eights (mkRandomSource 2 0) 0
    [Some (ipv4_new 8 8 8 8); Some (ipv4_new 8 8 8 8); None] (mkRandomSource 2 2) 8).
  { eapply rc_cons; [apply rn_some; [simpl; lia|apply (Hgen 0%nat)]|].
    eapply rc_cons; [apply rn_some; [simpl; lia|apply (Hgen 4%nat)]|].
    eapply rc_cons; [apply rn_done; simpl; lia|]. apply rc_nil. }
  split; [exact Hrun|].
  exact (proj1 (random_source_yields 2 rng_eights 0 _ _ _ Hrun)).
Defined.

Example parse_ipv4_ex :
  map parse_ipv4 [bytes_of "1.2.3.4"; bytes_of "01.2.3.4"; bytes_of "256.1.1.1";
                  bytes_of "1.2.3"; bytes_of "1.2.3.4 "] =
  [Some (ipv4_new 1 2 3 4); None; None; None; None].
Proof. reflexivity. Qed.
Example parse_ipv4net_ex :
  map parse_ipv4net [bytes_of "10.0.0.0/30"; bytes_of "10.0.0.5/30"; bytes_of "10.0.0.0";
                     bytes_of "10.0.0.0/33"; bytes_of "010.0.0.0/8"] =
  [Some (mkIpv4Net (ipv4_new 10 0 0 0) 30); Some (mkIpv4Net (ipv4_new 10 0 0 5) 30); None; None;
   Some (mkIpv4Net (ipv4_new 10 0 0 0) 8)].
Proof. reflexivity. Qed.
Example hosts_30 : hosts (mkIpv4Net (ipv4_new 10 0 0 5) 30) = [ipv4_new 10 0 0 5; ipv4_new 10 0 0 6].
Proof. reflexivity. Qed.
Example hosts_31 : hosts (mkIpv4Net (ipv4_new 10 0 0 5) 31) = [ipv4_new 10 0 0 4; ipv4_new 10 0 0 5].
Proof. reflexivity. Qed.
Example cidr_hosts_ex : cidr_hosts (bytes_of "10.0.0.0/30, bogus,192.168.1.8/31") =
  [ipv4_new 10 0 0 1; ipv4_new 10 0 0 2; ipv4_new 192 168 1 8; ipv4_new 192 168 1 9].
Proof. reflexivity. Qed.

(** C7: after [MultiIpSource::from_cidr] the source drains the concatenation
    of the expansions of the comma-separated pieces, up to the shuffle; a
    piece that does not parse as a network contributes nothing; an address
    is in the source exactly when some well-formed piece's block contains
    it, excluding network and broadcast only for prefixes below /31; no
    public-address filter applies, and "10.0.0.0/30" yields exactly the two
    private addresses 10.0.0.1 and 10.0.0.2. *)
Theorem from_cidr_expansion (s : list Z) (ips : list Ipv4Addr) :
  from_cidr s ips ->
  Permutation (multi_drain ips) (flat_map cidr_entry_hosts (split_on 44 s)) /\
  (forall x, In x ips <->
     exists piece n, In piece (split_on 44 s) /\ parse_ipv4net (trim piece) = Some n /\
       let k := 32 - prefix_len n in
       let net0 := net_addr n / 2 ^ k * 2 ^ k in
       net0 <= x <= net0 + 2 ^ k - 1 /\
       (31 <= prefix_len n \/ (x <> net0 /\ x <> net0 + 2 ^ k - 1))) /\
  (forall ips', from_cidr (bytes_of "10.0.0.0/30") ips' ->
     Permutation (multi_drain ips') [ipv4_new 10 0 0 1; ipv4_new 10 0 0 2] /\
     Forall (fun ip => filter.is_public_ipv4 ip = false) ips').
Proof.
  unfold from_cidr, multi_drain. intros H. split; [|split].
  - rewrite <- cidr_hosts_flat_map. symmetry. rewrite H. apply Permutation_rev.
  - intros x. split.
    + intros Hx. apply (Permutation_in x (Permutation_sym H)) in Hx.
      rewrite cidr_hosts_flat_map, in_flat_map in Hx.
      destruct Hx as [piece [Hp Hx]]. unfold cidr_entry_hosts in Hx.
      destruct (parse_ipv4net (trim piece)) as [n|] eqn:Hn; [|destruct Hx].
      destruct (parse_ipv4net_bounds _ _ Hn) as [Ha Hpl].
      exists piece, n. split; [exact Hp|]. split; [exact Hn|].
      apply (proj1 (hosts_spec n x Ha Hpl)). exact Hx.
    + intros [piece [n [Hp [Hn Hx]]]]. apply (Permutation_in x H).
      rewrite cidr_hosts_flat_map, in_flat_map. exists piece. split; [exact Hp|].
      unfold cidr_entry_hosts. rewrite Hn.
      destruct (parse_ipv4net_bounds _ _ Hn) as [Ha Hpl].
      apply (proj2 (hosts_spec n x Ha Hpl)). exact Hx.
  - intros ips' H'.
    replace (cidr_hosts (bytes_of "10.0.0.0/30"))
      with [ipv4_new 10 0 0 1; ipv4_new 10 0 0 2] in H' by reflexivity.
    split.
    + symmetry. rewrite H'. apply Permutation_rev.
    + apply Forall_forall. intros x Hx. apply (Permutation_in x (Permutation_sym H')) in Hx.
      destruct Hx as [<-|[<-|[]]]; reflexivity.
Qed.

Lemma from_cidr_expansion_witness :
  let ips := cidr_hosts (bytes_of "10.0.0.0/30, bogus,192.168.1.8/31") in
  from_cidr (bytes_of "10.0.0.0/30, bogus,192.168.1.8/31") ips /\
  Permutation (multi_drain ips)
    (flat_map cidr_entry_hosts (split_on 44 (bytes_of "10.0.0.0/30, bogus,192.168.1.8/31"))).
Proof.
  intros ips. assert (H : from_cidr (bytes_of "10.0.0.0/30, bogus,192.168.1.8/31") ips)
    by (unfold from_cidr; reflexivity).
  split; [exact H|].
  exact (proj1 (from_cidr_expansion _ _ H)).
Defined.

(** C7 as stated fails for /31 and /32 blocks: [Ipv4Net::hosts] keeps the
    network and broadcast addresses there, so "10.0.0.0/32" yields its
    network (= broadcast) address and "10.0.0.0/31" both of its addresses. *)
Lemma from_cidr_expansion_counterexample :
  cidr_hosts (bytes_of "10.0.0.0/32") = [ipv4_new 10 0 0 0] /\
  network (mkIpv4Net (ipv4_new 10 0 0 0) 32) = ipv4_new 10 0 0 0 /\
  broadcast (mkIpv4Net (ipv4_new 10 0 0 0) 32) = ipv4_new 10 0 0 0 /\
  cidr_hosts (bytes_of "10.0.0.0/31") = [ipv4_new 10 0 0 0; ipv4_new 10 0 0 1] /\
  network (mkIpv4Net (ipv4_new 10 0 0 0) 31) = ipv4_new 10 0 0 0 /\
  broadcast (mkIpv4Net (ipv4_new 10 0 0 0) 31) = ipv4_new 10 0 0 1.
Proof. repeat split; reflexivity. Qed.

(** C8: after [MultiIpSource::from_file] on a file that reads as UTF-8 text,
    the source holds, up to the shuffle, exactly the addresses of the trimmed
    lines that parse as IPv4 addresses, one per such line, in file order
    before the shuffle; other lines are dropped. A file that cannot be read,
    or is not UTF-8, gives an empty source. "1.2.3.4\nnot-an-ip\n5.6.7.8"
    yields exactly 1.2.3.4 and 5.6.7.8. *)
Theorem from_file_lines (file : option (list Z)) (ips : list Ipv4Addr) :
  from_file file ips ->
  (forall bytes, file = Some bytes -> utf8_valid bytes = true ->
     Permutation ips (filter_map (fun line => parse_ipv4 (trim line)) (lines bytes))) /\
  (forall bytes, file = Some bytes -> utf8_valid bytes = false -> ips = []) /\
  (file = None -> ips = []) /\
  (forall ips', from_file (Some (bytes_of "1.2.3.4" ++ [10] ++ bytes_of "not-an-ip" ++ [10] ++
                                  bytes_of "5.6.7.8")) ips' ->
     Permutation ips' [ipv4_new 1 2 3 4; ipv4_new 5 6 7 8]).
Proof.
  unfold from_file, file_ips, read_to_string. intros H. split; [|split; [|split]].
  - intros bytes -> Hv. rewrite Hv, fold_file_ips in H. symmetry. exact H.
  - intros bytes -> Hv. rewrite Hv in H. apply Permutation_nil. exact H.
  - intros ->. apply Permutation_nil. exact H.
  - intros ips' H'. rewrite <- H'. reflexivity.
Qed.

Lemma from_file_lines_witness :
  let f := Some (bytes_of "1.2.3.4" ++ [10] ++ bytes_of "not-an-ip" ++ [10] ++
                 bytes_of "5.6.7.8") in
  from_file f (file_ips f) /\
  Permutation (file_ips f) [ipv4_new 1 2 3 4; ipv4_new 5 6 7 8].
Proof.
  intros f. assert (H : from_file f (file_ips f)) by (unfold from_file; reflexivity).
  split; [exact H|].
  exact (proj2 (proj2 (proj2 (from_file_lines f (file_ips f) H))) _ H).
Defined.

(** C8 as stated fails when the file is not UTF-8: [read_to_string] errors,
    the [Err] arm leaves the vector empty, and a line that parses is lost. *)
Lemma from_file_lines_counterexample :
  let bytes := bytes_of "1.2.3.4" ++ [10; 255] in
  lines bytes = [bytes_of "1.2.3.4"; [255]] /\
  parse_ipv4 (trim (bytes_of "1.2.3.4")) = Some (ipv4_new 1 2 3 4) /\
  utf8_valid bytes = false /\
  file_ips (Some bytes) = [].
Proof. repeat split; reflexivity. Qed.

(** Extra: [<Ipv4Addr as FromStr>::from_str] accepts exactly the strings
    that [<Ipv4Addr as Display>] prints: a text parses to [ip] if and only if
    it is the dotted-decimal rendering of [ip] (no leading zeros, no signs,
    no spaces, four octets). *)
Theorem parse_ipv4_display (s : list Z) (ip : Ipv4Addr) :
  parse_ipv4 s = Some ip <-> 0 <= ip < 2 ^ 32 /\ s = ipv4_to_string ip.
Proof.
  split.
  - unfold parse_ipv4. destruct (15 <? List.length s)%nat; [discriminate|].
    destruct (std_read_octet s) as [[a s1]|] eqn:E1; [|discriminate].
    destruct (read_given_char 46 s1) as [t1|] eqn:R1; [|discriminate].
    destruct (std_read_octet t1) as [[b s2]|] eqn:E2; [|discriminate].
    destruct (read_given_char 46 s2) as [t2|] eqn:R2; [|discriminate].
    destruct (std_read_octet t2) as [[c s3]|] eqn:E3; [|discriminate].
    destruct (read_given_char 46 s3) as [t3|] eqn:R3; [|discriminate].
    destruct (std_read_octet t3) as [[d s4]|] eqn:E4; [|discriminate].
    destruct s4; [|discriminate]. intros H. injection H as <-.
    apply read_octet_inv in E1 as (-> & Ha & _).
    apply read_octet_inv in E2 as (-> & Hb & _).
    apply read_octet_inv in E3 as (-> & Hc & _).
    apply read_octet_inv in E4 as (-> & Hd & _).
    apply read_given_char_inv in R1, R2, R3. subst.
    split; [apply ipv4_new_range; assumption|].
    unfold ipv4_to_string. destruct (octets_ipv4_new a b c d Ha Hb Hc Hd) as (-> & -> & -> & ->).
    rewrite app_nil_r. reflexivity.
  - intros [Hip ->]. unfold ipv4_to_string. cbn [app].
    rewrite parse_dotted by apply octet_range.
    rewrite ipv4_new_octets by exact Hip. reflexivity.
Qed.

(** Extra: what the aggregator loop writes. With [--simulate] it writes
    nothing to either file. Otherwise [found_ips.txt] receives exactly each
    hit's address in dotted decimal followed by a newline, in the order the
    stream yields them, and nothing for a miss; the log receives exactly one
    newline per hit: in JSON mode whatever the timestamps contain (serde_json
    escapes newlines), in text mode when the timestamps have no newline. *)
Theorem sink_loop_outputs (simulate json : bool) (stamp : nat -> list Z)
    (stream : list (Ipv4Addr * ProbeResult)) :
  (simulate = true -> sink_loop simulate json stamp 0 stream = ([], [])) /\
  (simulate = false ->
     snd (sink_loop simulate json stamp 0 stream) =
       flat_map (fun ip => ipv4_to_string ip ++ [10]) (hit_ips stream) /\
     ((json = true /\ (forall k, Forall (fun b => 0 <= b) (stamp k))) \/
      (json = false /\ (forall k, ~ In 10 (stamp k))) ->
      count_occ Z.eq_dec (fst (sink_loop simulate json stamp 0 stream)) 10 =
        List.length (filter is_hit stream))).
Proof.
  split.
  - intros ->. apply sink_loop_sim.
  - intros ->. split; [apply sink_loop_clean|].
    intros [[-> Hst]|[-> Hst]]; apply sink_loop_log_count; intros k ip port lat.
    + apply scan_result_json_no_nl, Hst.
    + apply text_log_line_no_nl, Hst.
Qed.

Lemma sink_loop_outputs_witness :
  snd (sink_loop false true stamp_nl 0 stream_ex) =
    flat_map (fun ip => ipv4_to_string ip ++ [10]) [ipv4_new 1 2 3 4; ipv4_new 9 9 9 9] /\
  count_occ Z.eq_dec (fst (sink_loop false true stamp_nl 0 stream_ex)) 10 = 2%nat.
Proof.
  destruct (sink_loop_outputs false true stamp_nl stream_ex) as [_ H].
  destruct (H eq_refl) as [H1 H2]. split; [exact H1|].
  rewrite H2; [reflexivity|]. left. split; [reflexivity|].
  intros k. unfold stamp_nl. repeat constructor; vm_compute; discriminate.
Defined.

(** Extra: the found-IP list can be fed back with [--file]. Appending a
    non-simulate run's [found_ips.txt] writes to a UTF-8 file that is empty
    or ends in a newline, and reading the result with
    [MultiIpSource::from_file], gives the addresses read before followed by
    the run's hits, in the order they were found. *)
Theorem found_ips_reread (json : bool) (stamp : nat -> list Z)
    (stream : list (Ipv4Addr * ProbeResult)) (old : list Z) :
  utf8_valid old = true -> (old = [] \/ exists o, old = o ++ [10]) ->
  Forall (fun item => 0 <= fst item < 2 ^ 32) stream ->
  file_ips (Some (old ++ snd (sink_loop false json stamp 0 stream))) =
  file_ips (Some old) ++ hit_ips stream.
Proof.
  intros Hv Hend Hr. rewrite sink_loop_clean.
  set (clean := flat_map (fun ip => ipv4_to_string ip ++ [10]) (hit_ips stream)).
  assert (Hc : utf8_valid clean = true) by apply utf8_ascii, clean_ascii.
  assert (Hlines : lines (old ++ clean) = lines old ++ lines clean).
  { destruct Hend as [->|[o ->]]; [reflexivity|].
    unfold lines. rewrite <- app_assoc. cbn [app].
    rewrite split_inclusive_app, map_app. reflexivity. }
  assert (Hips : filter_map (fun line => parse_ipv4 (trim line)) (lines clean) = hit_ips stream).
  { unfold clean. rewrite lines_clean.
    assert (Hh : Forall (fun ip => 0 <= ip < 2 ^ 32) (hit_ips stream)).
    { unfold hit_ips. apply Forall_forall. intros x Hx.
      apply in_map_iff in Hx as [it [<- Hit]]. apply filter_In in Hit as [Hit _].
      rewrite Forall_forall in Hr. exact (Hr it Hit). }
    apply parse_display_lines, Hh. }
  rewrite !file_ips_some, (utf8_valid_app (List.length old) old clean (le_n _) Hv), Hc, Hv.
  rewrite Hlines, filter_map_app, Hips. reflexivity.
Qed.

Lemma found_ips_reread_witness :
  file_ips (Some (bytes_of "8.8.8.8" ++ [10] ++ snd (sink_loop false false stamp_plain 0 stream_ex))) =
  [ipv4_new 8 8 8 8; ipv4_new 1 2 3 4; ipv4_new 9 9 9 9].
Proof.
  rewrite app_assoc.
  rewrite (found_ips_reread false stamp_plain stream_ex (bytes_of "8.8.8.8" ++ [10])).
  - reflexivity.
  - reflexivity.
  - right. exists (bytes_of "8.8.8.8"). reflexivity.
  - unfold stream_ex. repeat apply Forall_cons; try apply Forall_nil; unfold fst, ipv4_new; range_by_eval.
Defined.

(** Extra: the order in which [buffer_unordered(2048)] yields the results
    does not change the final [Stats]: the aggregator loop gives the same
    statistics for any permutation of the same results. *)
Theorem aggregate_order_independent (st : Stats) (l l' : list (Ipv4Addr * ProbeResult)) :
  Permutation l l' -> aggregate st l = aggregate st l'.
Proof. exact (aggregate_permutation st l l'). Qed.

Lemma aggregate_order_independent_witness :
  Permutation stream_ex
    [(ipv4_new 5 6 7 8, (None, None, Some Timeout));
     (ipv4_new 1 2 3 4, (Some 80, Some 12, None));
     (ipv4_new 9 9 9 9, (Some 443, Some 30, None))] /\
  aggregate stats_default stream_ex =
  aggregate stats_default
    [(ipv4_new 5 6 7 8, (None, None, Some Timeout));
     (ipv4_new 1 2 3 4, (Some 80, Some 12, None));
     (ipv4_new 9 9 9 9, (Some 443, Some 30, None))].
Proof.
  split; [unfold stream_ex; apply perm_swap|].
  apply aggregate_order_independent. unfold stream_ex. apply perm_swap.
Defined.

(** Extra: from statistics whose fields are in the ranges of their types,
    the aggregator loop adds one to [total_processed] per result, one to
    [found] per hit, one to [timeouts], [refused] or [unreachable] per miss
    with that reason, and each hit's latency (0 when absent) to
    [total_latency], wrapping modulo 2^32 and 2^128. A miss without a reason
    touches only [total_processed]. *)
Theorem aggregate_counts (st : Stats) (l : list (Ipv4Addr * ProbeResult)) :
  stats_in_range st ->
  aggregate st l =
  mkStats ((found st + count_if is_hit l) mod 2 ^ 32)
          ((timeouts st + count_if (is_miss_with Timeout) l) mod 2 ^ 32)
          ((refused st + count_if (is_miss_with ConnectionRefused) l) mod 2 ^ 32)
          ((unreachable st + count_if (is_miss_with Unreachable) l) mod 2 ^ 32)
          ((total_processed st + Z.of_nat (List.length l)) mod 2 ^ 32)
          ((total_latency st + latency_sum l) mod 2 ^ 128).
Proof. exact (aggregate_closed l st). Qed.

Lemma aggregate_counts_witness :
  stats_in_range stats_default /\
  aggregate stats_default stream_ex = mkStats 2 1 0 0 3 42.
Proof.
  assert (Hr : stats_in_range stats_default) by (unfold stats_in_range; cbn; lia).
  split; [exact Hr|].
  rewrite (aggregate_counts stats_default stream_ex Hr). vm_compute. reflexivity.
Defined.

(** Extra: for a well-formed network (address below 2^32, prefix at most
    32), [Ipv4Net::hosts] yields 2^(32-prefix) - 2 addresses below /31 and
    2^(32-prefix) addresses for /31 and /32. *)
Theorem hosts_length (n : Ipv4Net) :
  0 <= net_addr n < 2 ^ 32 -> 0 <= prefix_len n <= 32 ->
  Z.of_nat (List.length (hosts n)) =
  if prefix_len n <? 31 then 2 ^ (32 - prefix_len n) - 2 else 2 ^ (32 - prefix_len n).
Proof. exact (hosts_count n). Qed.

Lemma hosts_length_witness :
  0 <= net_addr (mkIpv4Net (ipv4_new 10 0 0 5) 24) < 2 ^ 32 /\
  0 <= prefix_len (mkIpv4Net (ipv4_new 10 0 0 5) 24) <= 32 /\
  Z.of_nat (List.length (hosts (mkIpv4Net (ipv4_new 10 0 0 5) 24))) = 254.
Proof.
  assert (Ha : 0 <= net_addr (mkIpv4Net (ipv4_new 10 0 0 5) 24) < 2 ^ 32)
    by (cbn [net_addr]; unfold ipv4_new; range_by_eval).
  assert (Hp : 0 <= prefix_len (mkIpv4Net (ipv4_new 10 0 0 5) 24) <= 32) by (cbn; lia).
  split; [exact Ha|]. split; [exact Hp|].
  rewrite (hosts_length _ Ha Hp). reflexivity.
Defined.

(** Extra: [total_count()] of [MultiIpSource::from_cidr] is the sum over
    the comma-separated entries of the block sizes: 2^(32-prefix) - 2 below
    /31, 2^(32-prefix) for /31 and /32, and 0 for an entry that does not
    parse, whatever order the shuffle chose. *)
Theorem from_cidr_total_count (s : list Z) (ips : list Ipv4Addr) :
  from_cidr s ips ->
  Z.of_nat (multi_total_count ips) =
  fold_right (fun piece acc =>
                match parse_ipv4net (trim piece) with
                | Some net => if prefix_len net <? 31 then 2 ^ (32 - prefix_len net) - 2
                              else 2 ^ (32 - prefix_len net)
                | None => 0
                end + acc) 0 (split_on 44 s).
Proof.
  unfold from_cidr, multi_total_count. intros H.
  rewrite <- (Permutation_length H), cidr_hosts_flat_map.
  induction (split_on 44 s) as [|piece rest IH]; [reflexivity|].
  cbn [flat_map fold_right]. rewrite length_app, Nat2Z.inj_add, IH, cidr_entry_count.
  reflexivity.
Qed.

Lemma from_cidr_total_count_witness :
  from_cidr (bytes_of "10.0.0.0/30, bogus,192.168.1.8/31")
            (cidr_hosts (bytes_of "10.0.0.0/30, bogus,192.168.1.8/31")) /\
  Z.of_nat (multi_total_count (cidr_hosts (bytes_of "10.0.0.0/30, bogus,192.168.1.8/31"))) = 4.
Proof.
  assert (H : from_cidr (bytes_of "10.0.0.0/30, bogus,192.168.1.8/31")
                        (cidr_hosts (bytes_of "10.0.0.0/30, bogus,192.168.1.8/31")))
    by apply Permutation_refl.
  split; [exact H|].
  rewrite (from_cidr_total_count _ _ H). vm_compute. reflexivity.
Defined.

(** Extra: [Scanner::new] reads back a port list written as decimal
    numbers separated by commas: for ports in [0, 65535], the [--ports]
    text they render to parses to exactly those ports, in order. *)
Theorem scanner_new_ports_roundtrip (args : Cli.Args) (ps : list Z) :
  Forall (fun p => 0 <= p <= 65535) ps ->
  Cli.ports args = join_comma (map u_dec ps) ->
  ports (scanner_new args) = ps.
Proof.
  intros Hps Ha. unfold scanner_new. cbn [ports]. rewrite Ha.
  exact (scanner_ports_of_text ps Hps).
Qed.

Lemma scanner_new_ports_roundtrip_witness :
  Forall (fun p => 0 <= p <= 65535) [80; 443; 22; 8080] /\
  Cli.ports Cli.default_args = join_comma (map u_dec [80; 443; 22; 8080]) /\
  ports (scanner_new Cli.default_args) = [80; 443; 22; 8080].
Proof.
  assert (Hr : Forall (fun p => 0 <= p <= 65535) [80; 443; 22; 8080])
    by (repeat apply Forall_cons; try apply Forall_nil; lia).
  assert (Ht : Cli.ports Cli.default_args = join_comma (map u_dec [80; 443; 22; 8080]))
    by (vm_compute; reflexivity).
  split; [exact Hr|]. split; [exact Ht|].
  exact (scanner_new_ports_roundtrip Cli.default_args _ Hr Ht).
Defined.

